(** * Marine audio environmental scoring: the rule-based scorer and the
      spectral feature extractor of [back.py].

    The scorer ([compute_environmental_score]) only compares its seven
    features against literal thresholds and adds integers, so it is embedded
    on IEEE binary64 values ([PrimFloat.float], the type of a Python
    [float]) and on [Z] for the Python integers.  It is executable.

    The extractor ([analyze_audio_features], [compute_spectral_flatness])
    uses [sqrt], [cos], [exp], [log] and a discrete Fourier transform; it is
    embedded over the real numbers, i.e. with the exact value of every NumPy
    expression, rounding left out. *)

From Stdlib Require Import String.
From Stdlib Require Import Floats.PrimFloat.
From Stdlib Require Import ZArith Bool List Lia.
From Stdlib Require Import Reals Lra.
Import ListNotations.

Set Warnings "-inexact-float".

(** ** The scorer, on binary64 features *)

Module Scorer.

Local Open Scope Z_scope.

(** The feature dictionary read by [compute_environmental_score]. *)
Record FeatureVector : Type := mkFeatures {
  rms : float;
  lowRatio : float;
  midRatio : float;
  highRatio : float;
  centroid : float;
  flatness : float;
  lowPeakiness : float
}.

(** The dictionary returned by [compute_environmental_score]. *)
Record ScoreResult : Type := mkResult {
  score : Z;
  note : string;
  humpbackScore : Z;
  orcaScore : Z;
  boatPenalty : Z;
  isBoat : bool
}.

(** Python's [a < b] and [a > b] on floats: both are false when an operand
    is NaN, and [a > b] is [b < a]. *)
Definition lt (a b : float) : bool := PrimFloat.ltb a b.
Definition gt (a b : float) : bool := PrimFloat.ltb b a.

Infix "<." := lt (at level 70, no associativity).
Infix ">." := gt (at level 70, no associativity).

(** Python's chained comparison [lo < x < hi]. *)
Definition between (lo x hi : float) : bool := (lo <. x) && (x <. hi).

(** An [if c: acc += k] statement. *)
Definition bonus (c : bool) (k : Z) : Z := if c then k else 0.

(** An [if c1: acc += k1 elif c2: acc += k2] statement. *)
Definition tier2 (c1 : bool) (k1 : Z) (c2 : bool) (k2 : Z) : Z :=
  if c1 then k1 else if c2 then k2 else 0.

Definition tier3 (c1 : bool) (k1 : Z) (c2 : bool) (k2 : Z)
                 (c3 : bool) (k3 : Z) : Z :=
  if c1 then k1 else tier2 c2 k2 c3 k3.

Definition tier4 (c1 : bool) (k1 : Z) (c2 : bool) (k2 : Z)
                 (c3 : bool) (k3 : Z) (c4 : bool) (k4 : Z) : Z :=
  if c1 then k1 else tier3 c2 k2 c3 k3 c4 k4.

(** Lines 104-122. *)
Definition humpback_score (f : FeatureVector) : Z :=
  bonus (lowRatio f >. 0.6) 10
  + bonus (lowRatio f >. 0.5) 6
  + tier2 (flatness f <. 0.2) 12 (flatness f <. 0.3) 8
  + tier2 (lowPeakiness f >. 3.5) 10 (lowPeakiness f >. 2.5) 6
  + tier2 (centroid f <. 1000) 8 (centroid f <. 1500) 5
  + bonus (midRatio f <. 0.3) 5.

(** Lines 125-139. *)
Definition orca_score (f : FeatureVector) : Z :=
  bonus (between 0.15 (highRatio f) 0.4) 10
  + bonus (between 0.25 (flatness f) 0.55) 8
  + bonus (between 0.25 (midRatio f) 0.5) 8
  + bonus (between 0.2 (lowRatio f) 0.6) 7
  + bonus (between 1000 (centroid f) 3000) 8
  + bonus (between 1.5 (lowPeakiness f) 4) 5
  + bonus (between 0.01 (rms f) 0.08) 5.

(** Lines 145-150. *)
Definition is_boat (f : FeatureVector) : bool :=
  (flatness f >. 0.5)
  || ((centroid f >. 2000) && (lowPeakiness f <. 2.5))
  || ((midRatio f >. 0.4) && (flatness f >. 0.45))
  || (rms f >. 0.08).

(** Lines 152-192: the penalties, accumulated only for a boat. *)
Definition boat_penalties (f : FeatureVector) : Z :=
  tier4 (flatness f >. 0.7) (-60) (flatness f >. 0.6) (-50)
        (flatness f >. 0.5) (-40) (flatness f >. 0.4) (-30)
  + tier4 (centroid f >. 4000) (-40) (centroid f >. 3000) (-35)
          (centroid f >. 2500) (-30) (centroid f >. 2000) (-20)
  + tier3 (lowPeakiness f <. 1.5) (-30) (lowPeakiness f <. 2.0) (-25)
          (lowPeakiness f <. 2.5) (-15)
  + tier2 (midRatio f >. 0.5) (-30) (midRatio f >. 0.4) (-20)
  + bonus (highRatio f >. 0.35) (-25)
  + tier3 (rms f >. 0.15) (-30) (rms f >. 0.1) (-20) (rms f >. 0.08) (-10).

Definition boat_score (f : FeatureVector) : Z :=
  if is_boat f then boat_penalties f else 0.

(** Line 195. *)
Definition animal_score (f : FeatureVector) : Z :=
  Z.max (humpback_score f) (orca_score f).

(** Line 196: the score before any cap. *)
Definition combined_score (f : FeatureVector) : Z :=
  50 + (animal_score f + boat_score f).

(** Lines 199-200. *)
Definition cap_boat (boat : bool) (s : Z) : Z :=
  if boat && (30 <? s) then Z.min 30 s else s.

(** Lines 203-204. *)
Definition cap_animal (boat : bool) (s : Z) : Z :=
  if negb boat && (95 <? s) then 95 else s.

(** [np.clip(a, a_min, a_max)] is [minimum(a_max, maximum(a, a_min))]. *)
Definition np_clip (a a_min a_max : Z) : Z := Z.min a_max (Z.max a a_min).

(** [int(x)] truncates toward zero; on an integer, as here, it changes
    nothing. *)
Definition py_int (x : Z) : Z := Z.quot x 1.

(** Line 207. *)
Definition final_score (f : FeatureVector) : Z :=
  py_int (np_clip (cap_animal (is_boat f) (cap_boat (is_boat f) (combined_score f)))
                  0 100).

Definition NOTE_HIGH : string :=
  "High: Strong marine mammal vocalizations detected (healthy environment).".
Definition NOTE_MEDIUM : string :=
  "Medium: Moderate marine activity or mixed signals with some noise.".
Definition NOTE_LOW : string :=
  "Low: Significant pollution (boat/engine noise) or minimal biological activity.".

(** Lines 210-215. *)
Definition select_note (s : Z) : string :=
  if 80 <=? s then NOTE_HIGH
  else if 40 <=? s then NOTE_MEDIUM
  else NOTE_LOW.

(** Lines 90-224. *)
Definition compute_environmental_score (f : FeatureVector) : ScoreResult :=
  let s := final_score f in
  {| score := s;
     note := select_note s;
     humpbackScore := humpback_score f;
     orcaScore := orca_score f;
     boatPenalty := boat_score f;
     isBoat := is_boat f |}.

(** *** Sample feature vectors *)

(** A strongly tonal low-frequency call (a 200 Hz tone): quiet, almost all
    energy below 300 Hz. *)
Definition tonal_call : FeatureVector :=
  {| rms := 0.05; lowRatio := 0.9; midRatio := 0.05; highRatio := 0.05;
     centroid := 500; flatness := 0.1; lowPeakiness := 4 |}.

(** The same call recorded louder, above the 0.08 RMS boat threshold. *)
Definition loud_call : FeatureVector :=
  {| rms := 0.09; lowRatio := 0.9; midRatio := 0.05; highRatio := 0.05;
     centroid := 500; flatness := 0.1; lowPeakiness := 4 |}.

(** Broadband engine noise. *)
Definition engine_noise : FeatureVector :=
  {| rms := 0.2; lowRatio := 0.2; midRatio := 0.55; highRatio := 0.25;
     centroid := 2600; flatness := 0.75; lowPeakiness := 1.2 |}.

(** A moderately structured recording with a mid-band component. *)
Definition mixed_signal : FeatureVector :=
  {| rms := 0.005; lowRatio := 0.55; midRatio := 0.35; highRatio := 0.1;
     centroid := 1600; flatness := 0.35; lowPeakiness := 2 |}.

(** The features of digital silence. *)
Definition silence : FeatureVector :=
  {| rms := 0; lowRatio := 0; midRatio := 0; highRatio := 0;
     centroid := 0; flatness := 0; lowPeakiness := 0 |}.

Definition finite_features (f : FeatureVector) : bool :=
  is_finite (rms f) && is_finite (lowRatio f) && is_finite (midRatio f)
  && is_finite (highRatio f) && is_finite (centroid f)
  && is_finite (flatness f) && is_finite (lowPeakiness f).

End Scorer.

(** ** The feature extractor, over the reals *)

Module Extractor.

Local Open Scope R_scope.

(** A NumPy scalar of the extractor: a real number, or NaN.  With real
    samples the only source of NaN in this code is the mean of a
    zero-length array; every other division has a denominator guarded by
    [eps] and every logarithm an argument floored at [eps]. *)
Inductive npfloat : Type :=
| Real (r : R)
| NaN.

(** NaN propagates through arithmetic. *)
Definition nf_map (f : R -> R) (x : npfloat) : npfloat :=
  match x with Real r => Real (f r) | NaN => NaN end.

Definition nf_map2 (f : R -> R -> R) (x y : npfloat) : npfloat :=
  match x, y with Real a, Real b => Real (f a b) | _, _ => NaN end.

(** The decoded audio: one-dimensional for a mono file, otherwise one row
    per sample index holding the channels of that frame (at least one). *)
Inductive ndarray : Type :=
| Mono (samples : list R)
| Multi (frames : list (R * list R)).

(** [arr.size] and [len(arr)]. *)
Definition size (a : ndarray) : nat :=
  match a with
  | Mono s => length s
  | Multi fr => fold_right (fun f n => (S (length (snd f)) + n)%nat) O fr
  end.

Definition len (a : ndarray) : nat :=
  match a with Mono s => length s | Multi fr => length fr end.

(** The exceptions of the extractor.  [InvalidInputError] is the error kind
    named by the specification; no statement of [back.py] raises it. *)
Inductive py_error : Type :=
| OverflowError
| ZeroDivisionError
| InvalidInputError.

Inductive result (A : Type) : Type :=
| Ok (a : A)
| Raise (e : py_error).
Arguments Ok {A} a.
Arguments Raise {A} e.

Definition bind {A B : Type} (r : result A) (k : A -> result B) : result B :=
  match r with Ok a => k a | Raise e => Raise e end.

Notation "x <- r ;; k" := (bind r (fun x => k))
  (at level 61, r at next level, right associativity).

Definition eps : R := 1e-12.

Definition Rltb (x y : R) : bool := if Rlt_dec x y then true else false.
Definition Rgeb (x y : R) : bool := if Rge_dec x y then true else false.

Fixpoint zip_with {A B C : Type} (f : A -> B -> C) (a : list A) (b : list B)
  : list C :=
  match a, b with
  | x :: a', y :: b' => f x y :: zip_with f a' b'
  | _, _ => []
  end.

(** [a[mask]]: the elements of [a] where the boolean mask is true. *)
Fixpoint compress (mask : list bool) (a : list R) : list R :=
  match mask, a with
  | b :: mask', x :: a' =>
      if b then x :: compress mask' a' else compress mask' a'
  | _, _ => []
  end.

Definition np_sum (a : list R) : R := fold_right Rplus 0 a.

(** [np.mean]: NaN (with a warning, no exception) on a zero-length array. *)
Definition np_mean (a : list R) : npfloat :=
  match a with
  | [] => NaN
  | _ :: _ => Real (np_sum a / INR (length a))
  end.

(** [np.mean(waveform, axis=1)] on one frame, as the exact mean; the
    binary64 mean agrees with it for one channel and for two equal
    channels, not in general. *)
Definition frame_mean (f : R * list R) : R :=
  (fst f + np_sum (snd f)) / INR (S (length (snd f))).

Definition np_clip (x lo hi : R) : R := Rmin hi (Rmax x lo).

(** Lines 12-19, with exact [exp], [ln] and division.  The range of the
    result is that of the program; its exact value is not: on an all-zero
    spectrum this gives one half where binary64 gives a value one rounding
    step away, and no overflow is modelled. *)
Definition compute_spectral_flatness (mags : list R) : npfloat :=
  let mags := map (fun m => Rmax m eps) mags in
  let geometric_mean := nf_map exp (np_mean (map ln mags)) in
  let arithmetic_mean := np_mean mags in
  let flatness :=
    nf_map2 (fun g a => g / (a + eps)) geometric_mean arithmetic_mean in
  nf_map (fun x => np_clip x 0 1) flatness.

(** [np.hanning(M)]: empty for [M < 1], [[1.]] for [M = 1], otherwise
    [0.5 + 0.5 * cos(pi * n / (M - 1))] for [n] in [arange(1 - M, M, 2)]. *)
Definition np_hanning (M : nat) : list R :=
  match M with
  | O => []
  | S O => [1]
  | _ =>
      map (fun k : nat =>
             0.5 + 0.5 * cos (PI * (1 - INR M + 2 * INR k) / (INR M - 1)))
          (seq 0 M)
  end.

(** [int(np.ceil(np.log2(n)))] for a length [n]: [np.log2(0)] is minus
    infinity, which [int] refuses with an [OverflowError]. *)
Definition ceil_log2 (n : nat) : result nat :=
  match n with
  | O => Raise OverflowError
  | S _ => Ok (Nat.log2_up n)
  end.

(** [np.fft.rfft]: bins [0 .. n//2] of the discrete Fourier transform, as
    (real part, imaginary part). *)
Definition dft_bin (x : list R) (k : nat) : R * R :=
  let n := INR (length x) in
  let term (f : R -> R) :=
    np_sum (zip_with (fun xj (j : nat) => xj * f (2 * PI * INR k * INR j / n))
                     x (seq 0 (length x))) in
  (term cos, - term sin).

Definition np_rfft (x : list R) : list (R * R) :=
  map (dft_bin x) (seq 0 (S (length x / 2))).

Definition np_abs (z : R * R) : R := sqrt (fst z ^ 2 + snd z ^ 2).

(** [1.0 / sr] on a Python integer. *)
Definition py_div (x : R) (sr : Z) : result R :=
  if (sr =? 0)%Z then Raise ZeroDivisionError else Ok (x / IZR sr).

(** [np.fft.rfftfreq(n, d)]: [arange(0, n//2 + 1) * (1.0 / (n * d))]. *)
Definition np_rfftfreq (n : nat) (d : R) : list R :=
  map (fun k : nat => INR k * (1 / (INR n * d))) (seq 0 (S (n / 2))).

Definition SAMPLE_COUNT : nat := Z.to_nat 16384.

(** The feature dictionary; [float(x)] keeps the value of a NumPy scalar. *)
Record FeatureVector : Type := mkFeatures {
  rms : npfloat;
  lowRatio : npfloat;
  midRatio : npfloat;
  highRatio : npfloat;
  centroid : npfloat;
  flatness : npfloat;
  lowPeakiness : npfloat
}.

(** Lines 25-31: the mono analysis frame. *)
Definition analysis_frame (waveform : ndarray) : list R :=
  let waveform :=
    match waveform with
    | Mono s => s
    | Multi fr => map frame_mean fr
    end in
  firstn SAMPLE_COUNT waveform.

(** Lines 36-47: Hann window, zero padding to [fft_size], magnitudes. *)
Definition magnitudes (waveform : list R) (fft_size : nat) : list R :=
  let window := np_hanning (length waveform) in
  let windowed := zip_with Rmult waveform window in
  let padded := windowed ++ repeat 0 (fft_size - length windowed) in
  map np_abs (np_rfft padded).

Definition low_mask (freqs : list R) : list bool :=
  map (fun f => Rltb f 300) freqs.
Definition mid_mask (freqs : list R) : list bool :=
  zip_with andb (map (fun f => Rgeb f 300) freqs)
                (map (fun f => Rltb f 3000) freqs).
Definition high_mask (freqs : list R) : list bool :=
  map (fun f => Rgeb f 3000) freqs.

(** Lines 71-77. *)
Definition low_peakiness_of (low_mags : list R) : npfloat :=
  match low_mags with
  | [] => Real 1
  | m :: rest =>
      let low_mean := np_mean low_mags in
      let low_max := fold_left Rmax rest m in
      nf_map (fun mean => low_max / (mean + 1e-12)) low_mean
  end.

(** Lines 49-87, once the spectrum is known, with exact sums and
    quotients: in binary64 the guard [1e-12] is absorbed by a large energy,
    so a ratio can round to exactly 1. *)
Definition spectral_features (rms : npfloat) (freqs mags : list R)
  : FeatureVector :=
  let energy := map (fun m => m ^ 2) mags in
  let total_energy := np_sum energy + 1e-12 in
  let low_ratio := np_sum (compress (low_mask freqs) energy) / total_energy in
  let mid_ratio := np_sum (compress (mid_mask freqs) energy) / total_energy in
  let high_ratio := np_sum (compress (high_mask freqs) energy) / total_energy in
  let centroid :=
    np_sum (zip_with Rmult freqs mags) / (np_sum mags + 1e-12) in
  let flatness := compute_spectral_flatness mags in
  let low_peakiness := low_peakiness_of (compress (low_mask freqs) mags) in
  {| rms := rms;
     lowRatio := Real low_ratio;
     midRatio := Real mid_ratio;
     highRatio := Real high_ratio;
     centroid := Real centroid;
     flatness := flatness;
     lowPeakiness := low_peakiness |}.

(** Lines 22-87. *)
Definition analyze_audio_features (waveform : ndarray) (sr : Z)
  : result FeatureVector :=
  let waveform := analysis_frame waveform in
  let rms := nf_map sqrt (np_mean (map (fun x => x ^ 2) waveform)) in
  e <- ceil_log2 (length (zip_with Rmult waveform
                                   (np_hanning (length waveform)))) ;;
  let fft_size := (2 ^ e)%nat in
  let mags := magnitudes waveform fft_size in
  d <- py_div 1 sr ;;
  let freqs := np_rfftfreq fft_size d in
  Ok (spectral_features rms freqs mags).

(** The total spectral energy [np.sum(mags ** 2)] of a waveform. *)
Definition spectral_energy (waveform : ndarray) : R :=
  let frame := analysis_frame waveform in
  np_sum (map (fun m => m ^ 2)
              (magnitudes frame (2 ^ Nat.log2_up (length frame)))).

Definition band_ratio_sum (f : FeatureVector) : npfloat :=
  nf_map2 Rplus (nf_map2 Rplus (lowRatio f) (midRatio f)) (highRatio f).

(** [x] is a number within [tol] of [target]. *)
Definition within (tol : R) (x : npfloat) (target : R) : Prop :=
  match x with
  | Real r => Rabs (r - target) <= tol
  | NaN => False
  end.

(** *** The [/analyze] handler, lines 227-255 *)

Inductive http_response (Body : Type) : Type :=
| BadRequest (error : string) (detail : option string)
                                   (* jsonify({"error": ...}), 400 *)
| Success (body : Body)            (* jsonify(response), 200 *)
| Uncaught (e : py_error).         (* exception left to Flask *)
Arguments BadRequest {Body} error detail.
Arguments Success {Body} body.
Arguments Uncaught {Body} e.

Section Handler.
Context {Bytes ScoreResult : Type}.
(** [sf.read]: the decoded array and sample rate, or the text of the
    exception it raised. *)
Variable sf_read : Bytes -> string + ndarray * Z.
(** The scorer, applied to the extracted features. *)
Variable compute_environmental_score : FeatureVector -> ScoreResult.

Definition analyze (file : option Bytes)
  : http_response (ScoreResult * FeatureVector) :=
  match file with
  | None => BadRequest "no file" None
  | Some data =>
      match sf_read data with
      | inl e => BadRequest "cannot decode audio" (Some e)
      | inr (arr, sr) =>
          if (size arr =? 0)%nat then BadRequest "empty audio" None
          else
            match analyze_audio_features arr sr with
            | Raise e => Uncaught e
            | Ok features =>
                Success (compute_environmental_score features, features)
            end
      end
  end.
End Handler.

End Extractor.

(** ** Properties of the extractor *)

Module ExtractorFacts.
Import Extractor.
Local Open Scope R_scope.

Lemma eps_pos : 0 < eps.
Proof. unfold eps. lra. Qed.

(** *** Lengths *)

Lemma zip_with_length {A B C} (f : A -> B -> C) a b :
  length (zip_with f a b) = Nat.min (length a) (length b).
Proof.
  revert b. induction a as [|x a IH]; intros [|y b]; simpl; auto.
Qed.

Lemma np_hanning_length M : length (np_hanning M) = M.
Proof.
  destruct M as [|[|M]]; try reflexivity.
  unfold np_hanning. now rewrite length_map, length_seq.
Qed.

Lemma windowed_length (waveform : list R) :
  length (zip_with Rmult waveform (np_hanning (length waveform)))
  = length waveform.
Proof. rewrite zip_with_length, np_hanning_length. apply Nat.min_id. Qed.

Lemma size_0_len (a : ndarray) : size a = 0%nat <-> len a = 0%nat.
Proof.
  destruct a as [s|fr]; simpl; [tauto|].
  destruct fr as [|f fr]; simpl; split; intros H; try reflexivity; discriminate.
Qed.

Lemma analysis_frame_length (w : ndarray) :
  length (analysis_frame w) = Nat.min SAMPLE_COUNT (len w).
Proof.
  unfold analysis_frame.
  destruct w as [s|fr]; cbn [len]; rewrite length_firstn;
    [|rewrite length_map]; reflexivity.
Qed.

Lemma analysis_frame_empty (w : ndarray) :
  len w = 0%nat -> analysis_frame w = [].
Proof.
  intros H. apply length_zero_iff_nil.
  rewrite analysis_frame_length, H. apply Nat.min_0_r.
Qed.

Lemma analysis_frame_nonempty (w : ndarray) :
  len w <> 0%nat -> length (analysis_frame w) <> 0%nat.
Proof.
  intros H. rewrite analysis_frame_length.
  assert (0 < SAMPLE_COUNT)%nat by (unfold SAMPLE_COUNT; lia).
  lia.
Qed.

(** *** Empty input *)

Lemma analyze_audio_features_empty (w : ndarray) (sr : Z) :
  len w = 0%nat -> analyze_audio_features w sr = Raise OverflowError.
Proof.
  intros H. unfold analyze_audio_features.
  rewrite (analysis_frame_empty w H). reflexivity.
Qed.

(** C1, as stated, fails: on the empty mono waveform the extractor raises
    [OverflowError], not [InvalidInputError]. *)
Lemma empty_waveform_not_invalid_input :
  analyze_audio_features (Mono []) 16000 = Raise OverflowError
  /\ analyze_audio_features (Mono []) 16000 <> Raise InvalidInputError.
Proof.
  assert (E : analyze_audio_features (Mono []) 16000 = Raise OverflowError)
    by (apply analyze_audio_features_empty; reflexivity).
  split; [exact E|]. rewrite E. discriminate.
Qed.

(** C1, amended.  On every waveform with zero samples the extractor returns
    no feature vector: it raises [OverflowError] when it sizes the
    transform; and the [/analyze] handler answers such an array with the
    400 response "empty audio" without calling the extractor. *)
Theorem empty_waveform_rejected (w : ndarray) (sr : Z) :
  size w = 0%nat ->
  analyze_audio_features w sr = Raise OverflowError
  /\ (forall fv : FeatureVector, analyze_audio_features w sr <> Ok fv)
  /\ (forall (Bytes ScoreResult : Type)
             (sf_read : Bytes -> string + ndarray * Z)
             (scorer : FeatureVector -> ScoreResult) (data : Bytes),
        sf_read data = inr (w, sr) ->
        analyze sf_read scorer (Some data) = BadRequest "empty audio" None).
Proof.
  intros Hsize.
  assert (E : analyze_audio_features w sr = Raise OverflowError)
    by (apply analyze_audio_features_empty, size_0_len, Hsize).
  split; [exact E|]. split.
  - intros fv. rewrite E. discriminate.
  - intros Bytes ScoreResult sf_read scorer data Hread.
    unfold analyze. rewrite Hread, Hsize. reflexivity.
Qed.

Lemma empty_waveform_rejected_witness :
  size (Multi []) = 0%nat
  /\ analyze_audio_features (Multi []) 44100 = Raise OverflowError.
Proof.
  split; [reflexivity|].
  apply (empty_waveform_rejected (Multi []) 44100). reflexivity.
Defined.

(** *** Band ratios *)

Lemma pow2_log2_up_ge (n : nat) : (n <= 2 ^ Nat.log2_up n)%nat.
Proof.
  destruct n as [|n]; [apply Nat.le_0_l|].
  apply Nat.log2_log2_up_spec. lia.
Qed.

Lemma magnitudes_length (waveform : list R) (fft_size : nat) :
  (length waveform <= fft_size)%nat ->
  length (magnitudes waveform fft_size) = S (fft_size / 2).
Proof.
  intros H. unfold magnitudes, np_rfft.
  rewrite !length_map, length_seq, length_app, repeat_length, windowed_length.
  replace (length waveform + (fft_size - length waveform))%nat with fft_size by lia.
  reflexivity.
Qed.

Lemma np_rfftfreq_length (n : nat) (d : R) :
  length (np_rfftfreq n d) = S (n / 2).
Proof. unfold np_rfftfreq. now rewrite length_map, length_seq. Qed.

Lemma Rltb_true (x y : R) : x < y -> Rltb x y = true.
Proof. intros H. unfold Rltb. destruct (Rlt_dec x y); [reflexivity|contradiction]. Qed.

Lemma Rltb_false (x y : R) : y <= x -> Rltb x y = false.
Proof. intros H. unfold Rltb. destruct (Rlt_dec x y); [lra|reflexivity]. Qed.

Lemma Rgeb_true (x y : R) : y <= x -> Rgeb x y = true.
Proof. intros H. unfold Rgeb. destruct (Rge_dec x y); [reflexivity|lra]. Qed.

Lemma Rgeb_false (x y : R) : x < y -> Rgeb x y = false.
Proof. intros H. unfold Rgeb. destruct (Rge_dec x y); [lra|reflexivity]. Qed.

Lemma np_sum_cons (x : R) (a : list R) : np_sum (x :: a) = x + np_sum a.
Proof. reflexivity. Qed.

(** The three masks select every bin exactly once. *)
Lemma bands_partition (freqs energy : list R) :
  length freqs = length energy ->
  np_sum (compress (low_mask freqs) energy)
  + np_sum (compress (mid_mask freqs) energy)
  + np_sum (compress (high_mask freqs) energy)
  = np_sum energy.
Proof.
  revert energy. induction freqs as [|f freqs IH]; intros [|e energy] Hlen;
    try discriminate Hlen.
  - simpl. lra.
  - injection Hlen as Hlen. rewrite np_sum_cons, <- (IH energy Hlen).
    unfold low_mask, mid_mask, high_mask.
    cbn [map zip_with compress].
    destruct (Rlt_dec f 300) as [L|L]; [|apply Rnot_lt_le in L];
      (destruct (Rlt_dec f 3000) as [H|H]; [|apply Rnot_lt_le in H]);
      try (exfalso; lra).
    + rewrite (Rltb_true f 300), (Rgeb_false f 300), (Rltb_true f 3000),
        (Rgeb_false f 3000) by assumption.
      cbn [andb]. rewrite np_sum_cons. ring.
    + rewrite (Rltb_false f 300), (Rgeb_true f 300), (Rltb_true f 3000),
        (Rgeb_false f 3000) by assumption.
      cbn [andb]. rewrite np_sum_cons. ring.
    + rewrite (Rltb_false f 300), (Rgeb_true f 300), (Rltb_false f 3000),
        (Rgeb_true f 3000) by assumption.
      cbn [andb]. rewrite np_sum_cons. ring.
Qed.

Lemma np_sum_squares_nonneg (a : list R) :
  0 <= np_sum (map (fun m => m ^ 2) a).
Proof.
  induction a as [|x a IH]; simpl; [lra|].
  pose proof (pow2_ge_0 x). simpl in *. lra.
Qed.

Lemma band_ratio_sum_spectral (r : npfloat) (freqs mags : list R) :
  length freqs = length mags ->
  let E := np_sum (map (fun m => m ^ 2) mags) in
  band_ratio_sum (spectral_features r freqs mags) = Real (E / (E + 1e-12)).
Proof.
  intros Hlen E. unfold band_ratio_sum, spectral_features.
  cbn [lowRatio midRatio highRatio nf_map2]. f_equal.
  assert (Hl : length freqs = length (map (fun m => m ^ 2) mags))
    by now rewrite length_map.
  pose proof (bands_partition freqs _ Hl) as P. fold E in P |- *.
  set (lo := np_sum (compress (low_mask freqs) _)) in *.
  set (mi := np_sum (compress (mid_mask freqs) _)) in *.
  set (hi := np_sum (compress (high_mask freqs) _)) in *.
  replace (E / (E + 1e-12)) with ((lo + mi + hi) / (E + 1e-12))
    by (rewrite P; reflexivity).
  unfold Rdiv. ring.
Qed.

(** On a non-empty waveform with a non-zero sample rate the extractor
    returns the features of the frame's spectrum. *)
Lemma analyze_audio_features_ok (w : ndarray) (sr : Z) :
  len w <> 0%nat -> sr <> 0%Z ->
  let frame := analysis_frame w in
  let fft_size := (2 ^ Nat.log2_up (length frame))%nat in
  analyze_audio_features w sr
  = Ok (spectral_features
          (nf_map sqrt (np_mean (map (fun x => x ^ 2) frame)))
          (np_rfftfreq fft_size (1 / IZR sr))
          (magnitudes frame fft_size)).
Proof.
  intros Hw Hsr frame fft_size. unfold analyze_audio_features.
  fold frame. rewrite windowed_length.
  pose proof (analysis_frame_nonempty w Hw) as Hn. fold frame in Hn.
  destruct (length frame) as [|n] eqn:En; [congruence|].
  cbn [ceil_log2 bind]. unfold py_div.
  destruct (sr =? 0)%Z eqn:E0; [apply Z.eqb_eq in E0; congruence|].
  cbn [bind]. reflexivity.
Qed.

Lemma band_ratio_sum_of_analysis (w : ndarray) (sr : Z) :
  len w <> 0%nat -> sr <> 0%Z ->
  exists fv : FeatureVector,
    analyze_audio_features w sr = Ok fv
    /\ band_ratio_sum fv
       = Real (spectral_energy w / (spectral_energy w + 1e-12)).
Proof.
  intros Hw Hsr. eexists. split.
  - apply (analyze_audio_features_ok w sr Hw Hsr).
  - apply band_ratio_sum_spectral.
    rewrite np_rfftfreq_length, magnitudes_length; [reflexivity|].
    apply pow2_log2_up_ge.
Qed.

(** A single zero sample: the one-point transform of silence. *)
Lemma spectral_energy_zero_sample : spectral_energy (Mono [0]) = 0.
Proof.
  unfold spectral_energy, analysis_frame.
  rewrite firstn_all2 by (unfold SAMPLE_COUNT; simpl; lia).
  unfold magnitudes, np_rfft, dft_bin, np_abs.
  cbn [length np_hanning zip_with Nat.log2_up].
  change (2 ^ Nat.log2_up 1)%nat with 1%nat.
  cbn [Nat.sub repeat app length Nat.div Nat.divmod fst seq map zip_with
       np_sum fold_right snd].
  replace ((0 * 1 * cos (2 * PI * INR 0 * INR 0 / INR 1) + 0) ^ 2
           + (- (0 * 1 * sin (2 * PI * INR 0 * INR 0 / INR 1) + 0)) ^ 2)
    with 0 by ring.
  rewrite sqrt_0. ring.
Qed.

(** C3, as stated, fails on silence: a single zero sample is a non-empty
    waveform whose three band ratios are 0 and sum to 0, not to 1. *)
Lemma band_ratios_of_silence :
  len (Mono [0]) <> 0%nat
  /\ exists fv : FeatureVector,
       analyze_audio_features (Mono [0]) 16000 = Ok fv
       /\ band_ratio_sum fv = Real 0
       /\ ~ within 1e-6 (band_ratio_sum fv) 1.
Proof.
  split; [discriminate|].
  destruct (band_ratio_sum_of_analysis (Mono [0]) 16000) as [fv [E S]];
    [discriminate | discriminate |].
  exists fv. split; [exact E|].
  rewrite spectral_energy_zero_sample in S.
  replace (0 / (0 + 1e-12)) with 0 in S by (unfold Rdiv; ring).
  split; [exact S|]. rewrite S. unfold within, Rabs.
  destruct (Rcase_abs (0 - 1)); lra.
Qed.

(** The Hann window of length 3 is [0, 1, 0]. *)
Lemma np_hanning_3 : np_hanning 3 = [0; 1; 0].
Proof.
  unfold np_hanning. cbn [seq map].
  replace (PI * (1 - INR 3 + 2 * INR 0) / (INR 3 - 1)) with (- PI)
    by (simpl; field).
  replace (PI * (1 - INR 3 + 2 * INR 1) / (INR 3 - 1)) with 0
    by (simpl; field).
  replace (PI * (1 - INR 3 + 2 * INR 2) / (INR 3 - 1)) with PI
    by (simpl; field).
  rewrite cos_neg, cos_PI, cos_0.
  repeat f_equal; lra.
Qed.

(** The magnitude of any bin of a frame whose only non-zero sample is the
    second one. *)
Lemma single_sample_bin (a b c t c0 s0 c2 s2 c3 s3 : R) :
  sqrt ((a * 0 * c0 + (b * 1 * cos t + (c * 0 * c2 + (0 * c3 + 0)))) ^ 2
        + (- (a * 0 * s0 + (b * 1 * sin t + (c * 0 * s2 + (0 * s3 + 0))))) ^ 2)
  = Rabs b.
Proof.
  rewrite <- (sqrt_Rsqr_abs b). f_equal.
  replace (Rsqr b) with (Rsqr b * (Rsqr (sin t) + Rsqr (cos t)))
    by (rewrite sin2_cos2; ring).
  unfold Rsqr. ring.
Qed.

(** Three samples: the window keeps the middle one only, and each of the
    three bins of the size-4 transform has its magnitude. *)
Lemma spectral_energy_three_samples (a b c : R) :
  spectral_energy (Mono [a; b; c]) = 3 * b ^ 2.
Proof.
  unfold spectral_energy, analysis_frame.
  rewrite firstn_all2 by (unfold SAMPLE_COUNT; simpl; lia).
  cbn [length]. change (2 ^ Nat.log2_up 3)%nat with 4%nat.
  unfold magnitudes. cbn [length]. rewrite np_hanning_3.
  unfold np_rfft, dft_bin, np_abs.
  cbn [zip_with length Nat.sub repeat app Nat.div Nat.divmod fst snd seq map
       np_sum fold_right].
  rewrite !single_sample_bin, !pow2_abs. ring.
Qed.

(** C3, amended.  On every non-empty waveform (and non-zero sample rate)
    the extractor returns a feature vector whose three band ratios sum to
    within 1e-6 of 1 as soon as the total spectral energy is at least
    1e-6, and to 0 when that energy is 0 (silence). *)
Theorem band_ratios_sum_within_tolerance (w : ndarray) (sr : Z) :
  len w <> 0%nat -> sr <> 0%Z ->
  exists fv : FeatureVector,
    analyze_audio_features w sr = Ok fv
    /\ (1e-6 <= spectral_energy w -> within 1e-6 (band_ratio_sum fv) 1)
    /\ (spectral_energy w = 0 -> band_ratio_sum fv = Real 0).
Proof.
  intros Hw Hsr.
  destruct (band_ratio_sum_of_analysis w sr Hw Hsr) as [fv [E S]].
  exists fv. split; [exact E|].
  set (e := spectral_energy w) in *. split.
  - intros Hbig. rewrite S. unfold within.
    assert (Hd : 0 < e + 1e-12) by lra.
    replace (e / (e + 1e-12) - 1) with (- (1e-12 / (e + 1e-12)))
      by (field; lra).
    assert (Hinv : 0 < 1e-12 / (e + 1e-12)) by (apply Rdiv_lt_0_compat; lra).
    rewrite Rabs_Ropp, Rabs_pos_eq by lra.
    apply Rmult_le_reg_r with (e + 1e-12); [lra|].
    unfold Rdiv. rewrite Rmult_assoc, Rinv_l by lra. lra.
  - intros Hz. rewrite S, Hz. f_equal. apply Rdiv_0_l.
Qed.

Lemma band_ratios_sum_within_tolerance_witness :
  len (Mono [0.25; 0.5; -0.25]) <> 0%nat
  /\ (16000 <> 0)%Z
  /\ 1e-6 <= spectral_energy (Mono [0.25; 0.5; -0.25])
  /\ exists fv : FeatureVector,
       analyze_audio_features (Mono [0.25; 0.5; -0.25]) 16000 = Ok fv
       /\ within 1e-6 (band_ratio_sum fv) 1.
Proof.
  assert (HE : 1e-6 <= spectral_energy (Mono [0.25; 0.5; -0.25]))
    by (rewrite spectral_energy_three_samples; lra).
  split; [discriminate|]. split; [discriminate|]. split; [exact HE|].
  destruct (band_ratios_sum_within_tolerance (Mono [0.25; 0.5; -0.25]) 16000)
    as [fv [E [T _]]]; [discriminate | discriminate |].
  exists fv. split; [exact E | exact (T HE)].
Defined.

(** *** Spectral flatness *)

Lemma np_clip_unit_range (x : R) : 0 <= np_clip x 0 1 <= 1.
Proof.
  unfold np_clip, Rmin, Rmax.
  destruct (Rle_dec x 0); destruct (Rle_dec 1 _); lra.
Qed.

Lemma floored_ge_eps (mags : list R) (m : R) :
  In m (map (fun m => Rmax m eps) mags) -> eps <= m.
Proof.
  rewrite in_map_iff. intros [x [<- _]]. apply Rmax_r.
Qed.

Lemma np_sum_ge (a : list R) (c : R) :
  (forall x, In x a -> c <= x) -> c * INR (length a) <= np_sum a.
Proof.
  induction a as [|x a IH]; intros H.
  - simpl. lra.
  - change (length (x :: a)) with (S (length a)). rewrite S_INR.
    change (np_sum (x :: a)) with (x + np_sum a).
    assert (c <= x) by (apply H; now left).
    assert (c * INR (length a) <= np_sum a) by (apply IH; intros; apply H; now right).
    lra.
Qed.

(** The flatness of a non-empty spectrum, before the final clip: a ratio of
    a positive geometric mean to a denominator above [2 * eps]. *)
Lemma flatness_unfold (mags : list R) :
  mags <> [] ->
  exists g a : R,
    compute_spectral_flatness mags = Real (np_clip (g / (a + eps)) 0 1)
    /\ 0 < g /\ eps <= a.
Proof.
  intros Hne. destruct mags as [|m mags]; [congruence|].
  unfold compute_spectral_flatness. cbv zeta.
  remember (map (fun m => Rmax m eps) (m :: mags)) as fl eqn:Hfl.
  assert (Hin : forall x, In x fl -> eps <= x)
    by (intros x; rewrite Hfl; apply floored_ge_eps).
  destruct fl as [|y fl]; [discriminate Hfl|].
  cbn [map np_mean nf_map nf_map2].
  eexists _, _. split; [reflexivity|]. split; [apply exp_pos|].
  pose proof (np_sum_ge (y :: fl) eps Hin) as Hs.
  assert (Hlen : 0 < INR (length (y :: fl)))
    by (cbn [length]; apply lt_0_INR; lia).
  apply Rmult_le_reg_r with (INR (length (y :: fl))); [exact Hlen|].
  unfold Rdiv. rewrite Rmult_assoc, Rinv_l by lra. lra.
Qed.

(** The flatness of an all-zero spectrum is one half: both means equal
    [eps] and the denominator is [eps + eps]. *)
Example flatness_of_zero_spectrum :
  compute_spectral_flatness [0; 0] = Real (1 / 2).
Proof.
  pose proof eps_pos as He.
  unfold compute_spectral_flatness.
  cbn [map np_mean nf_map nf_map2 length].
  rewrite (Rmax_right 0 eps) by lra. f_equal.
  replace (np_sum [ln eps; ln eps] / INR 2) with (ln eps)
    by (unfold np_sum; simpl; field).
  replace (np_sum [eps; eps] / INR 2) with eps
    by (unfold np_sum; simpl; field).
  rewrite exp_ln by exact He.
  replace (eps / (eps + eps)) with (1 / 2) by (field; lra).
  unfold np_clip, Rmin, Rmax.
  destruct (Rle_dec (1 / 2) 0); [lra|]. destruct (Rle_dec 1 (1 / 2)); lra.
Qed.




End ExtractorFacts.

(** ** Properties of the scorer *)

Module ScorerFacts.
Import Scorer.
Local Open Scope Z_scope.

Example score_tonal_call :
  compute_environmental_score tonal_call
  = {| score := 95; note := NOTE_HIGH; humpbackScore := 51; orcaScore := 5;
       boatPenalty := 0; isBoat := false |}.
Proof. reflexivity. Qed.

Example score_engine_noise :
  score (compute_environmental_score engine_noise) = 0
  /\ boatPenalty (compute_environmental_score engine_noise) = -180.
Proof. split; reflexivity. Qed.

Example score_mixed_signal :
  compute_environmental_score mixed_signal
  = {| score := 86; note := NOTE_HIGH; humpbackScore := 6; orcaScore := 36;
       boatPenalty := 0; isBoat := false |}.
Proof. reflexivity. Qed.

Example score_silence :
  compute_environmental_score silence
  = {| score := 75; note := NOTE_MEDIUM; humpbackScore := 25; orcaScore := 0;
       boatPenalty := 0; isBoat := false |}.
Proof. reflexivity. Qed.

(** Project the fields out of the returned record. *)
Ltac result_fields :=
  cbv zeta; unfold compute_environmental_score;
  cbn [score note humpbackScore orcaScore boatPenalty isBoat].

Lemma bonus_range c k : 0 <= k -> 0 <= bonus c k <= k.
Proof. destruct c; simpl; lia. Qed.

Lemma tier2_range c1 k1 c2 k2 :
  0 <= k2 <= k1 -> 0 <= tier2 c1 k1 c2 k2 <= k1.
Proof. destruct c1, c2; simpl; lia. Qed.

Lemma bonus_nonpos c k : k <= 0 -> k <= bonus c k <= 0.
Proof. destruct c; simpl; lia. Qed.

Lemma tier2_nonpos c1 k1 c2 k2 :
  k1 <= k2 <= 0 -> k1 <= tier2 c1 k1 c2 k2 <= 0.
Proof. destruct c1, c2; simpl; lia. Qed.

Lemma tier3_nonpos c1 k1 c2 k2 c3 k3 :
  k1 <= k2 <= k3 -> k3 <= 0 -> k1 <= tier3 c1 k1 c2 k2 c3 k3 <= 0.
Proof. destruct c1, c2, c3; simpl; lia. Qed.

Lemma tier4_nonpos c1 k1 c2 k2 c3 k3 c4 k4 :
  k1 <= k2 <= k3 -> k3 <= k4 <= 0 ->
  k1 <= tier4 c1 k1 c2 k2 c3 k3 c4 k4 <= 0.
Proof. destruct c1, c2, c3, c4; simpl; lia. Qed.

(** The humpback table sums to 51 at most, the orca table too. *)
Lemma humpback_score_range f : 0 <= humpback_score f <= 51.
Proof.
  unfold humpback_score.
  pose proof (bonus_range (lowRatio f >. 0.6) 10).
  pose proof (bonus_range (lowRatio f >. 0.5) 6).
  pose proof (tier2_range (flatness f <. 0.2) 12 (flatness f <. 0.3) 8).
  pose proof (tier2_range (lowPeakiness f >. 3.5) 10 (lowPeakiness f >. 2.5) 6).
  pose proof (tier2_range (centroid f <. 1000) 8 (centroid f <. 1500) 5).
  pose proof (bonus_range (midRatio f <. 0.3) 5).
  lia.
Qed.

Lemma orca_score_range f : 0 <= orca_score f <= 51.
Proof.
  unfold orca_score.
  pose proof (bonus_range (between 0.15 (highRatio f) 0.4) 10).
  pose proof (bonus_range (between 0.25 (flatness f) 0.55) 8).
  pose proof (bonus_range (between 0.25 (midRatio f) 0.5) 8).
  pose proof (bonus_range (between 0.2 (lowRatio f) 0.6) 7).
  pose proof (bonus_range (between 1000 (centroid f) 3000) 8).
  pose proof (bonus_range (between 1.5 (lowPeakiness f) 4) 5).
  pose proof (bonus_range (between 0.01 (rms f) 0.08) 5).
  lia.
Qed.

Lemma boat_score_range f : -215 <= boat_score f <= 0.
Proof.
  unfold boat_score, boat_penalties. destruct (is_boat f); [|lia].
  pose proof (tier4_nonpos (flatness f >. 0.7) (-60) (flatness f >. 0.6) (-50)
                (flatness f >. 0.5) (-40) (flatness f >. 0.4) (-30)).
  pose proof (tier4_nonpos (centroid f >. 4000) (-40) (centroid f >. 3000) (-35)
                (centroid f >. 2500) (-30) (centroid f >. 2000) (-20)).
  pose proof (tier3_nonpos (lowPeakiness f <. 1.5) (-30)
                (lowPeakiness f <. 2.0) (-25) (lowPeakiness f <. 2.5) (-15)).
  pose proof (tier2_nonpos (midRatio f >. 0.5) (-30) (midRatio f >. 0.4) (-20)).
  pose proof (bonus_nonpos (highRatio f >. 0.35) (-25)).
  pose proof (tier3_nonpos (rms f >. 0.15) (-30) (rms f >. 0.1) (-20)
                (rms f >. 0.08) (-10)).
  lia.
Qed.

Lemma py_int_id x : py_int x = x.
Proof. unfold py_int. apply Z.quot_1_r. Qed.

Lemma np_clip_range a : 0 <= np_clip a 0 100 <= 100.
Proof. unfold np_clip. lia. Qed.

Lemma cap_boat_true s : cap_boat true s = Z.min 30 s.
Proof.
  unfold cap_boat. simpl. destruct (30 <? s) eqn:E; [reflexivity|].
  apply Z.ltb_ge in E. lia.
Qed.

Lemma cap_boat_false s : cap_boat false s = s.
Proof. reflexivity. Qed.

Lemma cap_animal_true s : cap_animal true s = s.
Proof. reflexivity. Qed.

Lemma cap_animal_false s : cap_animal false s = Z.min 95 s.
Proof.
  unfold cap_animal. simpl. destruct (95 <? s) eqn:E.
  - apply Z.ltb_lt in E. lia.
  - apply Z.ltb_ge in E. lia.
Qed.

Lemma final_score_boat f :
  is_boat f = true ->
  final_score f = Z.max 0 (Z.min 30 (combined_score f)).
Proof.
  intros B. unfold final_score. rewrite B, cap_boat_true, cap_animal_true, py_int_id.
  unfold np_clip. lia.
Qed.

Lemma final_score_no_boat f :
  is_boat f = false ->
  final_score f = Z.max 0 (Z.min 95 (combined_score f)).
Proof.
  intros B. unfold final_score.
  rewrite B, cap_boat_false, cap_animal_false, py_int_id.
  unfold np_clip. lia.
Qed.

Lemma select_note_cases s :
  (80 <= s -> select_note s = NOTE_HIGH)
  /\ (40 <= s < 80 -> select_note s = NOTE_MEDIUM)
  /\ (s < 40 -> select_note s = NOTE_LOW).
Proof.
  unfold select_note.
  destruct (80 <=? s) eqn:E80; destruct (40 <=? s) eqn:E40;
    try apply Z.leb_le in E80; try apply Z.leb_gt in E80;
    try apply Z.leb_le in E40; try apply Z.leb_gt in E40;
    repeat split; intros; solve [reflexivity | lia].
Qed.

(** C2.  The humpback table is not bounded by 35: on a strongly tonal
    low-frequency call every bonus of the table fires and [humpbackScore]
    is 10 + 6 + 12 + 10 + 8 + 5 = 51. *)
Theorem humpback_score_exceeds_35 :
  humpbackScore (compute_environmental_score tonal_call) = 51
  /\ 35 < humpbackScore (compute_environmental_score tonal_call).
Proof. split; [reflexivity | vm_compute; reflexivity]. Qed.

(** C4.  A result classified as a boat never scores above 30, and scores
    exactly 30 whenever [50 + animalScore + boatPenalty] is above 30. *)
Theorem boat_score_capped_at_30 (f : FeatureVector) :
  isBoat (compute_environmental_score f) = true ->
  let r := compute_environmental_score f in
  score r <= 30
  /\ (30 < 50 + Z.max (humpbackScore r) (orcaScore r) + boatPenalty r ->
      score r = 30).
Proof.
  result_fields. intros B. rewrite (final_score_boat f B).
  unfold combined_score, animal_score. split; lia.
Qed.

Lemma boat_score_capped_at_30_witness :
  isBoat (compute_environmental_score loud_call) = true
  /\ 30 < 50 + Z.max (humpbackScore (compute_environmental_score loud_call))
                     (orcaScore (compute_environmental_score loud_call))
          + boatPenalty (compute_environmental_score loud_call)
  /\ score (compute_environmental_score loud_call) = 30.
Proof.
  split; [reflexivity|]. split; [vm_compute; reflexivity|].
  apply (boat_score_capped_at_30 loud_call); vm_compute; reflexivity.
Defined.

(** C5.  A result not classified as a boat scores at most 95, hence never
    100, and scores exactly 95 whenever the combined score before the caps
    is above 95. *)
Theorem animal_score_capped_at_95 (f : FeatureVector) :
  isBoat (compute_environmental_score f) = false ->
  let r := compute_environmental_score f in
  score r <= 95
  /\ score r <> 100
  /\ (95 < 50 + Z.max (humpbackScore r) (orcaScore r) + boatPenalty r ->
      score r = 95).
Proof.
  result_fields. intros B. rewrite (final_score_no_boat f B).
  unfold combined_score, animal_score. repeat split; lia.
Qed.

Lemma animal_score_capped_at_95_witness :
  isBoat (compute_environmental_score tonal_call) = false
  /\ 95 < 50 + Z.max (humpbackScore (compute_environmental_score tonal_call))
                     (orcaScore (compute_environmental_score tonal_call))
          + boatPenalty (compute_environmental_score tonal_call)
  /\ score (compute_environmental_score tonal_call) = 95.
Proof.
  split; [reflexivity|]. split; [vm_compute; reflexivity|].
  apply (animal_score_capped_at_95 tonal_call); vm_compute; reflexivity.
Defined.

(** C6.  [isBoat] is true exactly when one of the four indicators holds:
    flatness > 0.5, or centroid > 2000 with lowPeakiness < 2.5, or
    midRatio > 0.4 with flatness > 0.45, or rms > 0.08. *)
Theorem is_boat_iff_indicator (f : FeatureVector) :
  isBoat (compute_environmental_score f) = true
  <-> ((flatness f >. 0.5) = true
       \/ ((centroid f >. 2000) = true /\ (lowPeakiness f <. 2.5) = true)
       \/ ((midRatio f >. 0.4) = true /\ (flatness f >. 0.45) = true)
       \/ (rms f >. 0.08) = true).
Proof.
  result_fields. unfold is_boat.
  rewrite !orb_true_iff, !andb_true_iff. tauto.
Qed.

(** C8.  On every finite feature vector (silence included) the scorer
    returns a result whose score is the integer truncation of the capped
    score clipped to [0, 100], and lies in that range. *)
Theorem score_in_0_100 (f : FeatureVector) :
  finite_features f = true ->
  exists r : ScoreResult,
    compute_environmental_score f = r
    /\ 0 <= score r <= 100
    /\ score r
       = Z.quot (np_clip (cap_animal (isBoat r)
                            (cap_boat (isBoat r)
                               (50 + (Z.max (humpbackScore r) (orcaScore r)
                                      + boatPenalty r))))
                         0 100) 1.
Proof.
  intros _. eexists. split; [reflexivity|]. result_fields. split.
  - unfold final_score. rewrite py_int_id. apply np_clip_range.
  - reflexivity.
Qed.

Lemma score_in_0_100_witness :
  finite_features silence = true
  /\ exists r : ScoreResult,
       compute_environmental_score silence = r
       /\ 0 <= score r <= 100
       /\ score r
          = Z.quot (np_clip (cap_animal (isBoat r)
                               (cap_boat (isBoat r)
                                  (50 + (Z.max (humpbackScore r) (orcaScore r)
                                         + boatPenalty r))))
                            0 100) 1.
Proof.
  split; [reflexivity|]. apply (score_in_0_100 silence). reflexivity.
Defined.

(** C9.  The note is one of three fixed strings, chosen on the final
    integer score: High from 80, Medium from 40 to 79, Low below 40. *)
Theorem note_by_score_threshold (f : FeatureVector) :
  let r := compute_environmental_score f in
  (note r = NOTE_HIGH \/ note r = NOTE_MEDIUM \/ note r = NOTE_LOW)
  /\ (80 <= score r -> note r = NOTE_HIGH)
  /\ (40 <= score r < 80 -> note r = NOTE_MEDIUM)
  /\ (score r < 40 -> note r = NOTE_LOW).
Proof.
  result_fields. split; [|apply select_note_cases].
  unfold select_note.
  destruct (80 <=? final_score f); [now left|].
  destruct (40 <=? final_score f); [right; now left | right; now right].
Qed.

(** C10.  A result classified as a boat always carries the Low note. *)
Theorem boat_note_is_low (f : FeatureVector) :
  isBoat (compute_environmental_score f) = true ->
  note (compute_environmental_score f) = NOTE_LOW.
Proof.
  result_fields. intros B. apply select_note_cases.
  rewrite (final_score_boat f B). lia.
Qed.

Lemma boat_note_is_low_witness :
  isBoat (compute_environmental_score engine_noise) = true
  /\ note (compute_environmental_score engine_noise) = NOTE_LOW.
Proof.
  split; [reflexivity|].
  apply (boat_note_is_low engine_noise). reflexivity.
Defined.

End ScorerFacts.

(** ** Further properties of the scorer *)

Module ScorerExtras.
Import Scorer.
Local Open Scope Z_scope.

Ltac fields :=
  cbv zeta; unfold compute_environmental_score;
  cbn [score note humpbackScore orcaScore boatPenalty isBoat].

(** The value of each penalty tier, with what the firing of its weakest
    condition guarantees. *)
Lemma flatness_tier_bounds c1 c2 c3 c4 :
  -60 <= tier4 c1 (-60) c2 (-50) c3 (-40) c4 (-30) <= 0
  /\ (c3 = true -> tier4 c1 (-60) c2 (-50) c3 (-40) c4 (-30) <= -40).
Proof. destruct c1, c2, c3, c4; simpl; split; try lia; intros; try lia; discriminate. Qed.

Lemma centroid_tier_bounds c1 c2 c3 c4 :
  -40 <= tier4 c1 (-40) c2 (-35) c3 (-30) c4 (-20) <= 0
  /\ (c4 = true -> tier4 c1 (-40) c2 (-35) c3 (-30) c4 (-20) <= -20).
Proof. destruct c1, c2, c3, c4; simpl; split; try lia; intros; try lia; discriminate. Qed.

Lemma peakiness_tier_bounds c1 c2 c3 :
  -30 <= tier3 c1 (-30) c2 (-25) c3 (-15) <= 0
  /\ (c3 = true -> tier3 c1 (-30) c2 (-25) c3 (-15) <= -15).
Proof. destruct c1, c2, c3; simpl; split; try lia; intros; try lia; discriminate. Qed.

Lemma mid_tier_bounds c1 c2 :
  -30 <= tier2 c1 (-30) c2 (-20) <= 0
  /\ (c2 = true -> tier2 c1 (-30) c2 (-20) <= -20).
Proof. destruct c1, c2; simpl; split; try lia; intros; try lia; discriminate. Qed.

Lemma high_bonus_bounds c : -25 <= bonus c (-25) <= 0.
Proof. destruct c; simpl; lia. Qed.

Lemma rms_tier_bounds c1 c2 c3 :
  -30 <= tier3 c1 (-30) c2 (-20) c3 (-10) <= 0
  /\ (c3 = true -> tier3 c1 (-30) c2 (-20) c3 (-10) <= -10).
Proof. destruct c1, c2, c3; simpl; split; try lia; intros; try lia; discriminate. Qed.

Lemma penalties_of_boat f :
  is_boat f = true -> -215 <= boat_penalties f <= -10.
Proof.
  unfold is_boat, boat_penalties. intros B.
  destruct (flatness_tier_bounds (flatness f >. 0.7) (flatness f >. 0.6)
              (flatness f >. 0.5) (flatness f >. 0.4)) as [F1 F2].
  destruct (centroid_tier_bounds (centroid f >. 4000) (centroid f >. 3000)
              (centroid f >. 2500) (centroid f >. 2000)) as [C1 C2].
  destruct (peakiness_tier_bounds (lowPeakiness f <. 1.5)
              (lowPeakiness f <. 2.0) (lowPeakiness f <. 2.5)) as [P1 P2].
  destruct (mid_tier_bounds (midRatio f >. 0.5) (midRatio f >. 0.4)) as [M1 M2].
  pose proof (high_bonus_bounds (highRatio f >. 0.35)) as H1.
  destruct (rms_tier_bounds (rms f >. 0.15) (rms f >. 0.1) (rms f >. 0.08))
    as [R1 R2].
  rewrite !orb_true_iff, !andb_true_iff in B.
  destruct B as [[[B | [B B']] | [B B']] | B].
  - specialize (F2 B). lia.
  - specialize (C2 B). lia.
  - specialize (M2 B). lia.
  - specialize (R2 B). lia.
Qed.

Lemma humpback_bounds f : 0 <= humpback_score f <= 51.
Proof.
  unfold humpback_score.
  destruct (lowRatio f >. 0.6), (lowRatio f >. 0.5), (flatness f <. 0.2),
    (flatness f <. 0.3), (lowPeakiness f >. 3.5), (lowPeakiness f >. 2.5),
    (centroid f <. 1000), (centroid f <. 1500), (midRatio f <. 0.3);
    cbn [bonus tier2]; lia.
Qed.

Lemma orca_bounds f : 0 <= orca_score f <= 51.
Proof.
  unfold orca_score.
  destruct (between 0.15 (highRatio f) 0.4), (between 0.25 (flatness f) 0.55),
    (between 0.25 (midRatio f) 0.5), (between 0.2 (lowRatio f) 0.6),
    (between 1000 (centroid f) 3000), (between 1.5 (lowPeakiness f) 4),
    (between 0.01 (rms f) 0.08); cbn [bonus]; lia.
Qed.

Lemma score_boat f :
  is_boat f = true -> final_score f = Z.max 0 (Z.min 30 (combined_score f)).
Proof.
  intros B. unfold final_score, py_int, np_clip, cap_animal, cap_boat.
  rewrite B, Z.quot_1_r. cbn [negb andb].
  destruct (30 <? combined_score f) eqn:E;
    [apply Z.ltb_lt in E | apply Z.ltb_ge in E]; lia.
Qed.

Lemma score_no_boat f :
  is_boat f = false -> final_score f = Z.min 95 (50 + animal_score f).
Proof.
  intros B. unfold final_score, py_int, np_clip, cap_animal, cap_boat,
    combined_score, boat_score.
  rewrite B, Z.quot_1_r. cbn [negb andb].
  pose proof (humpback_bounds f). unfold animal_score.
  destruct (95 <? 50 + (Z.max (humpback_score f) (orca_score f) + 0)) eqn:E;
    [apply Z.ltb_lt in E | apply Z.ltb_ge in E]; lia.
Qed.

Lemma notes_distinct :
  NOTE_LOW <> NOTE_MEDIUM /\ NOTE_LOW <> NOTE_HIGH /\ NOTE_MEDIUM <> NOTE_HIGH.
Proof. repeat split; discriminate. Qed.

Lemma note_of s :
  (80 <= s /\ select_note s = NOTE_HIGH)
  \/ (40 <= s < 80 /\ select_note s = NOTE_MEDIUM)
  \/ (s < 40 /\ select_note s = NOTE_LOW).
Proof.
  unfold select_note.
  destruct (80 <=? s) eqn:A; [apply Z.leb_le in A; now left|].
  apply Z.leb_gt in A.
  destruct (40 <=? s) eqn:B; [apply Z.leb_le in B | apply Z.leb_gt in B].
  - right; left. split; [lia|reflexivity].
  - right; right. split; [lia|reflexivity].
Qed.

(** X1.  For every feature vector the humpback pattern score lies between
    0 and 51, the sum of the largest bonus of each feature of the table. *)
Theorem humpback_score_between_0_and_51 (f : FeatureVector) :
  0 <= humpbackScore (compute_environmental_score f) <= 51.
Proof. fields. apply humpback_bounds. Qed.

(** X2.  For every feature vector the orca pattern score lies between 0
    and 51, the sum of its seven bonuses. *)
Theorem orca_score_between_0_and_51 (f : FeatureVector) :
  0 <= orcaScore (compute_environmental_score f) <= 51.
Proof. fields. apply orca_bounds. Qed.

(** X3.  The boat penalty is 0 for a result not classified as a boat and
    lies between -215 and -10 for a boat: whichever indicator classified
    the vector as a boat also fires a penalty tier.  So the penalty is
    negative exactly for boats. *)
Theorem boat_penalty_negative_iff_boat (f : FeatureVector) :
  let r := compute_environmental_score f in
  (isBoat r = false -> boatPenalty r = 0)
  /\ (isBoat r = true -> -215 <= boatPenalty r <= -10)
  /\ (boatPenalty r < 0 <-> isBoat r = true).
Proof.
  fields. unfold boat_score.
  destruct (is_boat f) eqn:B.
  - pose proof (penalties_of_boat f B). repeat split; intros; try lia; discriminate.
  - repeat split; intros; try lia; discriminate.
Qed.

(** X4.  The final score in closed form: for a boat it is
    [max(0, min(30, 50 + animalScore + boatPenalty))], otherwise
    [min(95, 50 + animalScore)]; the clamp to [0, 100] only ever acts on
    the low side, and only for boats. *)
Theorem score_closed_form (f : FeatureVector) :
  let r := compute_environmental_score f in
  let animal := Z.max (humpbackScore r) (orcaScore r) in
  score r = if isBoat r
            then Z.max 0 (Z.min 30 (50 + animal + boatPenalty r))
            else Z.min 95 (50 + animal).
Proof.
  fields. destruct (is_boat f) eqn:B.
  - rewrite (score_boat f B). unfold combined_score, animal_score. lia.
  - apply (score_no_boat f B).
Qed.

(** X5.  No feature vector scores above 95, and one that is not classified
    as a boat scores at least 50. *)
Theorem score_at_most_95 (f : FeatureVector) :
  let r := compute_environmental_score f in
  0 <= score r <= 95 /\ (isBoat r = false -> 50 <= score r).
Proof.
  fields. destruct (is_boat f) eqn:B.
  - rewrite (score_boat f B). split; [lia | discriminate].
  - rewrite (score_no_boat f B). pose proof (humpback_bounds f).
    unfold animal_score. split; [lia | intros _; lia].
Qed.

(** X6.  The Low note is returned exactly for the results classified as a
    boat. *)
Theorem low_note_iff_boat (f : FeatureVector) :
  let r := compute_environmental_score f in
  note r = NOTE_LOW <-> isBoat r = true.
Proof.
  fields. destruct notes_distinct as [LM [LH _]].
  destruct (note_of (final_score f)) as [[S N] | [[S N] | [S N]]];
    destruct (is_boat f) eqn:B; rewrite N;
    try (rewrite (score_boat f B) in S);
    try (rewrite (score_no_boat f B) in S);
    try (pose proof (humpback_bounds f) as HB; unfold animal_score in S);
    split; intros H; try reflexivity; try lia; try discriminate H;
    try (symmetry in H; contradiction).
Qed.

(** X7.  The High note (a score of at least 80) is returned exactly for
    the results not classified as a boat whose animal score, the larger of
    the humpback and orca scores, is at least 30. *)
Theorem high_note_iff_strong_animal (f : FeatureVector) :
  let r := compute_environmental_score f in
  (note r = NOTE_HIGH <-> 80 <= score r)
  /\ (80 <= score r
      <-> isBoat r = false /\ 30 <= Z.max (humpbackScore r) (orcaScore r)).
Proof.
  fields. destruct notes_distinct as [LM [LH MH]]. split.
  - destruct (note_of (final_score f)) as [[S N] | [[S N] | [S N]]];
      rewrite N; split; intros H; try reflexivity; try lia;
      try (symmetry in H; contradiction); contradiction.
  - destruct (is_boat f) eqn:B.
    + rewrite (score_boat f B). split; [lia | intros [H _]; discriminate H].
    + rewrite (score_no_boat f B). unfold animal_score.
      split; [intros H; split; [reflexivity | lia] | intros [_ H]; lia].
Qed.

End ScorerExtras.

(** ** Further properties of the extractor and of the handler *)

Module ExtractorExtras.
Import Extractor.
Local Open Scope R_scope.

Local Abbreviation nonneg := (Forall (fun x : R => 0 <= x)).

Lemma np_sum_nonneg (a : list R) : nonneg a -> 0 <= np_sum a.
Proof.
  induction 1 as [|x a Hx _ IH]; [simpl; lra|].
  change (np_sum (x :: a)) with (x + np_sum a). lra.
Qed.

Lemma compress_nonneg (mask : list bool) (a : list R) :
  nonneg a -> nonneg (compress mask a).
Proof.
  intros H. revert mask.
  induction H as [|x a Hx _ IH]; intros [|b mask]; cbn [compress];
    try constructor.
  destruct b; [constructor; [exact Hx | apply IH] | apply IH].
Qed.


Lemma magnitudes_nonneg (waveform : list R) (fft_size : nat) :
  nonneg (magnitudes waveform fft_size).
Proof.
  unfold magnitudes. rewrite Forall_map. apply Forall_forall.
  intros z _. apply sqrt_pos.
Qed.

Lemma pow2_pos (e : nat) : (0 < 2 ^ e)%nat.
Proof. apply Nat.neq_0_lt_0, Nat.pow_nonzero. discriminate. Qed.

(** The bin frequencies run from 0 to the Nyquist frequency. *)
Lemma np_rfftfreq_range (n : nat) (sr : Z) (f : R) :
  (0 < n)%nat -> (0 < sr)%Z ->
  In f (np_rfftfreq n (1 / IZR sr)) -> 0 <= f <= IZR sr / 2.
Proof.
  intros Hn Hsr. unfold np_rfftfreq. rewrite in_map_iff.
  intros [k [<- Hk]]. apply in_seq in Hk.
  assert (Hs : 0 < IZR sr) by (apply IZR_lt; exact Hsr).
  assert (HN : 0 < INR n) by (apply lt_0_INR; exact Hn).
  assert (Hk2 : (2 * k <= n)%nat).
  { pose proof (Nat.div_mod_eq n 2).
    pose proof (Nat.mod_upper_bound n 2). lia. }
  assert (Hk2R : 2 * INR k <= INR n).
  { apply le_INR in Hk2. rewrite mult_INR in Hk2. simpl in Hk2. lra. }
  assert (Hk0 : 0 <= INR k) by apply pos_INR.
  replace (INR k * (1 / (INR n * (1 / IZR sr))))
    with (INR k * IZR sr / INR n) by (field; lra).
  split.
  - apply Rmult_le_pos; [apply Rmult_le_pos; lra|].
    apply Rlt_le, Rinv_0_lt_compat, HN.
  - apply Rmult_le_reg_r with (INR n); [exact HN|].
    unfold Rdiv. rewrite Rmult_assoc, Rinv_l by lra. nra.
Qed.

(** A weighted sum with weights in [0, B] and non-negative terms. *)
Lemma weighted_sum_range (B : R) (freqs mags : list R) :
  0 <= B ->
  Forall (fun f => 0 <= f <= B) freqs -> nonneg mags ->
  0 <= np_sum (zip_with Rmult freqs mags) <= B * np_sum mags.
Proof.
  intros HB Hf. revert mags.
  induction Hf as [|f freqs Hf0 _ IH]; intros mags Hm.
  - cbn [zip_with]. pose proof (np_sum_nonneg mags Hm). simpl. nra.
  - destruct Hm as [|m mags Hm0 Hm].
    + cbn [zip_with]. simpl. lra.
    + cbn [zip_with].
      change (np_sum (f * m :: zip_with Rmult freqs mags))
        with (f * m + np_sum (zip_with Rmult freqs mags)).
      change (np_sum (m :: mags)) with (m + np_sum mags).
      specialize (IH mags Hm). nra.
Qed.

Lemma low_band_has_dc (n : nat) (d : R) (mags : list R) :
  mags <> [] ->
  exists m rest, compress (low_mask (np_rfftfreq n d)) mags = m :: rest.
Proof.
  intros Hm. destruct mags as [|m mags]; [congruence|].
  unfold np_rfftfreq, low_mask. cbn [seq map compress].
  assert (E : Rltb (INR 0 * (1 / (INR n * d))) 300 = true).
  { unfold Rltb. destruct (Rlt_dec _ _) as [|N]; [reflexivity|].
    exfalso. apply N. simpl. lra. }
  rewrite E. eauto.
Qed.

Lemma fold_left_Rmax_ge (a : list R) (x : R) : x <= fold_left Rmax a x.
Proof.
  revert x. induction a as [|y a IH]; intros x; simpl; [lra|].
  eapply Rle_trans; [apply Rmax_l | apply IH].
Qed.

Lemma np_mean_nonneg (a : list R) :
  a <> [] -> nonneg a -> exists mu, np_mean a = Real mu /\ 0 <= mu.
Proof.
  intros Hne Ha. destruct a as [|x a]; [congruence|].
  eexists. split; [reflexivity|].
  apply Rmult_le_pos; [apply np_sum_nonneg, Ha|].
  apply Rlt_le, Rinv_0_lt_compat, lt_0_INR. simpl. lia.
Qed.

(** *** Errors and the handler *)

Lemma zero_sample_rate_error (w : ndarray) :
  len w <> 0%nat ->
  analyze_audio_features w 0 = Raise ZeroDivisionError.
Proof.
  intros Hw. unfold analyze_audio_features.
  rewrite ExtractorFacts.windowed_length.
  pose proof (ExtractorFacts.analysis_frame_nonempty w Hw) as Hn.
  destruct (length (analysis_frame w)); [congruence | reflexivity].
Qed.

(** X8.  On a non-empty waveform a sample rate of 0 makes the extractor
    fail with [ZeroDivisionError], raised by [1.0 / sr] on line 50. *)
Theorem zero_sample_rate_raises (w : ndarray) :
  len w <> 0%nat ->
  analyze_audio_features w 0 = Raise ZeroDivisionError.
Proof. apply zero_sample_rate_error. Qed.

Lemma zero_sample_rate_raises_witness :
  len (Mono [0.25; -0.5; 0.125]) <> 0%nat
  /\ analyze_audio_features (Mono [0.25; -0.5; 0.125]) 0
     = Raise ZeroDivisionError.
Proof.
  split; [discriminate|].
  apply (zero_sample_rate_raises (Mono [0.25; -0.5; 0.125])). discriminate.
Defined.

(** X9.  The only exception the [/analyze] handler can leave uncaught is
    [ZeroDivisionError], and only when the decoder returned a non-empty
    array with a sample rate of 0: the emptiness guard keeps the
    [OverflowError] of the extractor from ever escaping. *)
Theorem handler_uncaught_only_zero_division
    (Bytes ScoreResult : Type) (sf_read : Bytes -> string + ndarray * Z)
    (scorer : FeatureVector -> ScoreResult) (file : option Bytes)
    (e : py_error) :
  analyze sf_read scorer file = Uncaught e ->
  e = ZeroDivisionError
  /\ exists data arr,
       file = Some data /\ sf_read data = inr (arr, 0%Z) /\ size arr <> 0%nat.
Proof.
  unfold analyze. destruct file as [data|]; [|discriminate].
  destruct (sf_read data) as [msg|[arr sr]] eqn:Hread; [discriminate|].
  destruct (size arr =? 0)%nat eqn:Hsize; [discriminate|].
  apply Nat.eqb_neq in Hsize.
  assert (Hlen : len arr <> 0%nat)
    by (intros H; apply Hsize, ExtractorFacts.size_0_len, H).
  destruct (Z.eq_dec sr 0) as [->|Hsr].
  - rewrite (zero_sample_rate_error arr Hlen).
    intros H. injection H as <-. split; [reflexivity|].
    exists data, arr. auto.
  - rewrite (ExtractorFacts.analyze_audio_features_ok arr sr Hlen Hsr).
    discriminate.
Qed.

Lemma handler_uncaught_only_zero_division_witness :
  analyze (fun _ : unit => inr (Mono [0.5], 0%Z))
          (fun _ : FeatureVector => tt) (Some tt)
  = Uncaught ZeroDivisionError
  /\ exists (data : unit) (arr : ndarray),
       Some tt = Some data
       /\ (fun _ : unit => @inr string _ (Mono [0.5], 0%Z)) data = inr (arr, 0%Z)
       /\ size arr <> 0%nat.
Proof.
  assert (H : analyze (fun _ : unit => inr (Mono [0.5], 0%Z))
                      (fun _ : FeatureVector => tt) (Some tt)
              = Uncaught ZeroDivisionError).
  { unfold analyze. cbn [size length Nat.eqb].
    rewrite (zero_sample_rate_error (Mono [0.5])) by discriminate.
    reflexivity. }
  split; [exact H|].
  apply (handler_uncaught_only_zero_division unit unit _ _ _ _ H).
Defined.

(** X10.  For a decoded array with at least one sample and a non-zero
    sample rate the handler answers 200 with the score computed from the
    very feature vector the extractor returned, merged with that vector. *)
Theorem handler_success
    (Bytes ScoreResult : Type) (sf_read : Bytes -> string + ndarray * Z)
    (scorer : FeatureVector -> ScoreResult) (data : Bytes)
    (arr : ndarray) (sr : Z) :
  sf_read data = inr (arr, sr) -> size arr <> 0%nat -> sr <> 0%Z ->
  exists fv : FeatureVector,
    analyze_audio_features arr sr = Ok fv
    /\ analyze sf_read scorer (Some data) = Success (scorer fv, fv).
Proof.
  intros Hread Hsize Hsr.
  assert (Hlen : len arr <> 0%nat)
    by (intros H; apply Hsize, ExtractorFacts.size_0_len, H).
  eexists. split.
  - apply (ExtractorFacts.analyze_audio_features_ok arr sr Hlen Hsr).
  - unfold analyze. rewrite Hread.
    apply Nat.eqb_neq in Hsize. rewrite Hsize.
    rewrite (ExtractorFacts.analyze_audio_features_ok arr sr Hlen Hsr).
    reflexivity.
Qed.

Lemma handler_success_witness :
  exists fv : FeatureVector,
    analyze_audio_features (Mono [0.5; 0.25]) 8000 = Ok fv
    /\ analyze (fun _ : unit => inr (Mono [0.5; 0.25], 8000%Z))
               (fun _ : FeatureVector => tt) (Some tt)
       = Success (tt, fv).
Proof.
  apply (handler_success unit unit
           (fun _ : unit => inr (Mono [0.5; 0.25], 8000%Z))
           (fun _ : FeatureVector => tt) tt (Mono [0.5; 0.25]) 8000);
    [reflexivity | discriminate | discriminate].
Defined.

(** *** The analysis frame *)

Lemma analyze_by_frame (w w' : ndarray) (sr : Z) :
  analysis_frame w = analysis_frame w' ->
  analyze_audio_features w sr = analyze_audio_features w' sr.
Proof. intros H. unfold analyze_audio_features. now rewrite H. Qed.

(** X11.  Only the first 16384 samples are analysed: samples appended to a
    waveform that already has [SAMPLE_COUNT] of them change nothing. *)
Theorem samples_past_16384_ignored (s extra : list R) (sr : Z) :
  (SAMPLE_COUNT <= length s)%nat ->
  analyze_audio_features (Mono (s ++ extra)) sr
  = analyze_audio_features (Mono s) sr.
Proof.
  intros H. apply analyze_by_frame. unfold analysis_frame.
  rewrite firstn_app.
  replace (SAMPLE_COUNT - length s)%nat with 0%nat by lia.
  cbn [firstn]. apply app_nil_r.
Qed.

Lemma samples_past_16384_ignored_witness :
  (SAMPLE_COUNT <= length (repeat 0.5%R SAMPLE_COUNT))%nat
  /\ analyze_audio_features (Mono (repeat 0.5 SAMPLE_COUNT ++ [1; -1])) 44100
     = analyze_audio_features (Mono (repeat 0.5 SAMPLE_COUNT)) 44100.
Proof.
  assert (H : (SAMPLE_COUNT <= length (repeat 0.5%R SAMPLE_COUNT))%nat)
    by (rewrite repeat_length; apply Nat.le_refl).
  split; [exact H|].
  apply (samples_past_16384_ignored (repeat 0.5 SAMPLE_COUNT) [1; -1] 44100 H).
Defined.

Lemma np_sum_repeat (c : R) (k : nat) : np_sum (repeat c k) = INR k * c.
Proof.
  induction k as [|k IH]; [simpl; ring|].
  change (np_sum (repeat c (S k))) with (c + np_sum (repeat c k)).
  rewrite IH, S_INR. ring.
Qed.

Lemma frame_mean_identical (x : R) (k : nat) :
  frame_mean (x, repeat x k) = x.
Proof.
  unfold frame_mean. cbn [fst snd].
  rewrite np_sum_repeat, repeat_length, S_INR.
  pose proof (pos_INR k). field. lra.
Qed.

Lemma identical_frames_as_mono (s : list R) (k : nat) (sr : Z) :
  analyze_audio_features (Multi (map (fun x => (x, repeat x k)) s)) sr
  = analyze_audio_features (Mono s) sr.
Proof.
  apply analyze_by_frame. unfold analysis_frame. f_equal.
  rewrite map_map. rewrite <- (map_id s) at 2.
  apply map_ext. intros x. apply frame_mean_identical.
Qed.

(** X12.  A two-dimensional array with a single channel, and a stereo
    array whose two channels are equal at every sample index, give
    exactly the result of the mono waveform: the channel mean of [x] and
    of [x, x] is [x]. *)
Theorem identical_channels_as_mono (s : list R) (sr : Z) :
  analyze_audio_features (Multi (map (fun x => (x, [])) s)) sr
  = analyze_audio_features (Mono s) sr
  /\ analyze_audio_features (Multi (map (fun x => (x, [x])) s)) sr
     = analyze_audio_features (Mono s) sr.
Proof.
  split.
  - apply (identical_frames_as_mono s 0 sr).
  - apply (identical_frames_as_mono s 1 sr).
Qed.

(** X13.  The transform size is the smallest power of two that holds the
    frame: it is at least the frame length, less than twice it, at most
    [SAMPLE_COUNT] = 16384, and the spectrum has [fft_size / 2 + 1] bins. *)
Theorem fft_size_bounds (w : ndarray) :
  len w <> 0%nat ->
  let n := length (analysis_frame w) in
  exists e : nat,
    ceil_log2 n = Ok e
    /\ (n <= 2 ^ e < 2 * n)%nat
    /\ (2 ^ e <= SAMPLE_COUNT)%nat
    /\ length (magnitudes (analysis_frame w) (2 ^ e)) = S (2 ^ e / 2).
Proof.
  intros Hw n.
  pose proof (ExtractorFacts.analysis_frame_nonempty w Hw) as Hn. fold n in Hn.
  assert (Hle : (n <= 2 ^ 14)%nat).
  { unfold n. rewrite ExtractorFacts.analysis_frame_length.
    replace (2 ^ 14)%nat with SAMPLE_COUNT by (vm_compute; reflexivity).
    apply Nat.le_min_l. }
  exists (Nat.log2_up n). split; [destruct n; [congruence | reflexivity]|].
  pose proof (ExtractorFacts.pow2_log2_up_ge n) as Hge.
  split; [split; [exact Hge|]|split].
  - destruct (Nat.eq_dec n 1) as [->|H1]; [vm_compute; lia|].
    assert (Hgt : (1 < n)%nat) by lia.
    pose proof (Nat.log2_up_spec n Hgt) as [Hlo _].
    assert (Hpos : (0 < Nat.log2_up n)%nat) by (apply Nat.log2_up_pos; exact Hgt).
    replace (Nat.log2_up n) with (S (Nat.pred (Nat.log2_up n))) by lia.
    rewrite Nat.pow_succ_r'. lia.
  - replace SAMPLE_COUNT with (2 ^ 14)%nat by (vm_compute; reflexivity).
    apply Nat.pow_le_mono_r; [discriminate|].
    rewrite <- (Nat.log2_up_pow2 14) by apply Nat.le_0_l.
    apply Nat.log2_up_le_mono, Hle.
  - apply ExtractorFacts.magnitudes_length, Hge.
Qed.

Lemma fft_size_bounds_witness :
  len (Mono [0.1; 0.2; 0.3]) <> 0%nat
  /\ exists e : nat,
       ceil_log2 (length (analysis_frame (Mono [0.1; 0.2; 0.3]))) = Ok e.
Proof.
  split; [discriminate|].
  destruct (fft_size_bounds (Mono [0.1; 0.2; 0.3])) as [e [H _]];
    [discriminate|].
  exists e. exact H.
Defined.

(** *** Ranges of the extracted features *)

Lemma compress_length (mask : list bool) (a : list R) :
  (length (compress mask a) <= length a)%nat.
Proof.
  revert a. induction mask as [|b mask IH]; intros [|x a]; cbn [compress length];
    try lia.
  destruct b; cbn [length]; specialize (IH a); lia.
Qed.

Lemma fold_left_Rmax_le_sum (a : list R) (x : R) :
  nonneg a -> 0 <= x -> fold_left Rmax a x <= x + np_sum a.
Proof.
  intros Ha. revert x. induction Ha as [|y a Hy _ IH]; intros x Hx.
  - simpl. lra.
  - cbn [fold_left]. change (np_sum (y :: a)) with (y + np_sum a).
    assert (Hm : 0 <= Rmax x y) by (eapply Rle_trans; [exact Hx | apply Rmax_l]).
    specialize (IH (Rmax x y) Hm).
    assert (Rmax x y <= x + y) by (apply Rmax_lub; lra).
    lra.
Qed.

Lemma np_mean_nonempty (a : list R) :
  a <> [] -> np_mean a = Real (np_sum a / INR (length a)).
Proof. destruct a; [congruence | reflexivity]. Qed.

(** What the extractor returns on valid input, field by field. *)
Lemma analyze_fields (w : ndarray) (sr : Z) :
  len w <> 0%nat -> sr <> 0%Z ->
  let frame := analysis_frame w in
  let fft_size := (2 ^ Nat.log2_up (length frame))%nat in
  let freqs := np_rfftfreq fft_size (1 / IZR sr) in
  let mags := magnitudes frame fft_size in
  exists fv : FeatureVector,
    analyze_audio_features w sr = Ok fv
    /\ fv = spectral_features
              (nf_map sqrt (np_mean (map (fun x => x ^ 2) frame))) freqs mags
    /\ length mags = S (fft_size / 2)
    /\ length freqs = length mags
    /\ frame <> [].
Proof.
  intros Hw Hsr frame fft_size freqs mags.
  eexists. split; [apply (ExtractorFacts.analyze_audio_features_ok w sr Hw Hsr)|].
  split; [reflexivity|].
  assert (Hm : length mags = S (fft_size / 2))
    by (apply ExtractorFacts.magnitudes_length, ExtractorFacts.pow2_log2_up_ge).
  split; [exact Hm|]. split.
  - unfold freqs. now rewrite ExtractorFacts.np_rfftfreq_length, Hm.
  - pose proof (ExtractorFacts.analysis_frame_nonempty w Hw) as Hn.
    intros E. apply Hn. fold frame. now rewrite E.
Qed.



(** X16.  On a non-empty waveform with a positive sample rate the spectral
    centroid is a number between 0 and the Nyquist frequency [sr / 2]. *)
Theorem centroid_below_nyquist (w : ndarray) (sr : Z) :
  len w <> 0%nat -> (0 < sr)%Z ->
  exists (fv : FeatureVector) (c : R),
    analyze_audio_features w sr = Ok fv
    /\ centroid fv = Real c
    /\ 0 <= c <= IZR sr / 2.
Proof.
  intros Hw Hsr.
  assert (Hsr0 : sr <> 0%Z) by lia.
  destruct (analyze_fields w sr Hw Hsr0) as [fv [E [-> _]]].
  set (N := (2 ^ Nat.log2_up (length (analysis_frame w)))%nat) in *.
  set (freqs := np_rfftfreq _ _) in *. set (mags := magnitudes _ _) in *.
  eexists _, _. split; [exact E|].
  unfold spectral_features. cbn [centroid]. split; [reflexivity|].
  assert (Hs : 0 < IZR sr) by (apply IZR_lt; exact Hsr).
  assert (Hf : Forall (fun f => 0 <= f <= IZR sr / 2) freqs).
  { apply Forall_forall. intros f Hin.
    apply (np_rfftfreq_range N sr f (pow2_pos _) Hsr Hin). }
  assert (Hm : nonneg mags) by apply magnitudes_nonneg.
  assert (HB : 0 <= IZR sr / 2) by lra.
  pose proof (weighted_sum_range (IZR sr / 2) freqs mags HB Hf Hm) as [W0 W1].
  pose proof (np_sum_nonneg mags Hm) as S0.
  set (num := np_sum (zip_with Rmult freqs mags)) in *.
  set (den := np_sum mags) in *.
  assert (Hd : 0 < den + 1e-12) by lra.
  split.
  - apply Rmult_le_pos; [exact W0 | apply Rlt_le, Rinv_0_lt_compat, Hd].
  - apply Rmult_le_reg_r with (den + 1e-12); [exact Hd|].
    unfold Rdiv at 1. rewrite Rmult_assoc, Rinv_l by lra. nra.
Qed.

Lemma centroid_below_nyquist_witness :
  len (Mono [0.5; -0.5; 0.25]) <> 0%nat /\ (0 < 8000)%Z
  /\ exists (fv : FeatureVector) (c : R),
       analyze_audio_features (Mono [0.5; -0.5; 0.25]) 8000 = Ok fv
       /\ centroid fv = Real c /\ 0 <= c <= IZR 8000 / 2.
Proof.
  split; [discriminate|]. split; [reflexivity|].
  apply (centroid_below_nyquist (Mono [0.5; -0.5; 0.25]) 8000);
    [discriminate | reflexivity].
Defined.

(** X17.  On valid input the flatness feature is a number in [0, 1]: the
    spectrum handed to the helper always has at least one bin. *)
Theorem extracted_flatness_in_unit_interval (w : ndarray) (sr : Z) :
  len w <> 0%nat -> sr <> 0%Z ->
  exists (fv : FeatureVector) (v : R),
    analyze_audio_features w sr = Ok fv
    /\ flatness fv = Real v
    /\ 0 <= v <= 1.
Proof.
  intros Hw Hsr.
  destruct (analyze_fields w sr Hw Hsr) as [fv [E [-> [Hm _]]]].
  set (mags := magnitudes _ _) in *.
  assert (Hne : mags <> []) by (intros H; rewrite H in Hm; discriminate Hm).
  destruct (ExtractorFacts.flatness_unfold mags Hne) as [g [a [F _]]].
  eexists _, _. split; [exact E|].
  unfold spectral_features. cbn [flatness].
  split; [exact F | apply ExtractorFacts.np_clip_unit_range].
Qed.

Lemma extracted_flatness_in_unit_interval_witness :
  len (Mono [0.5; -0.5; 0.25]) <> 0%nat /\ (8000 <> 0)%Z
  /\ exists (fv : FeatureVector) (v : R),
       analyze_audio_features (Mono [0.5; -0.5; 0.25]) 8000 = Ok fv
       /\ flatness fv = Real v /\ 0 <= v <= 1.
Proof.
  split; [discriminate|]. split; [discriminate|].
  apply (extracted_flatness_in_unit_interval (Mono [0.5; -0.5; 0.25]) 8000);
    discriminate.
Defined.

(** X18.  On valid input the low band is never empty (the bin of
    frequency 0 is always below 300 Hz), so the fallback value 1.0 of
    lines 76-77 is never returned: [lowPeakiness] is the ratio of the
    largest to the mean low-band magnitude, a number between 0 and the
    number of spectrum bins. *)
Theorem low_peakiness_range (w : ndarray) (sr : Z) :
  len w <> 0%nat -> sr <> 0%Z ->
  let frame := analysis_frame w in
  let fft_size := (2 ^ Nat.log2_up (length frame))%nat in
  let low_mags :=
    compress (low_mask (np_rfftfreq fft_size (1 / IZR sr)))
             (magnitudes frame fft_size) in
  exists (fv : FeatureVector) (m mean : R) (rest : list R),
    analyze_audio_features w sr = Ok fv
    /\ low_mags = m :: rest
    /\ np_mean low_mags = Real mean
    /\ lowPeakiness fv = Real (fold_left Rmax rest m / (mean + 1e-12))
    /\ 0 <= fold_left Rmax rest m / (mean + 1e-12) <= INR (S (fft_size / 2)).
Proof.
  intros Hw Hsr frame fft_size low_mags.
  destruct (analyze_fields w sr Hw Hsr) as [fv [E [-> [Hm _]]]].
  fold frame fft_size in Hm |- *.
  set (mags := magnitudes frame fft_size) in *.
  assert (Hne : mags <> []) by (intros H; rewrite H in Hm; discriminate Hm).
  destruct (low_band_has_dc fft_size (1 / IZR sr) mags Hne) as [m [rest L]].
  fold low_mags in L.
  assert (Hnn : nonneg low_mags)
    by (apply compress_nonneg, magnitudes_nonneg).
  assert (Hlen : (length low_mags <= S (fft_size / 2))%nat)
    by (rewrite <- Hm; apply compress_length).
  eexists. exists m, (np_sum low_mags / INR (length low_mags)), rest.
  split; [exact E|]. split; [exact L|].
  rewrite L in Hnn, Hlen |- *.
  split; [reflexivity|].
  unfold spectral_features. cbn [lowPeakiness].
  pose proof L as L'. unfold low_mags, mags, fft_size, frame in L'. rewrite L'.
  cbn [low_peakiness_of np_mean nf_map]. split; [reflexivity|].
  inversion Hnn as [|? ? Hm0 Hrest]; subst.
  pose proof (fold_left_Rmax_ge rest m) as Hge.
  pose proof (fold_left_Rmax_le_sum rest m Hrest Hm0) as Hle.
  change (m + np_sum rest) with (np_sum (m :: rest)) in Hle.
  pose proof (np_sum_nonneg (m :: rest) Hnn) as Hs.
  set (M := fold_left Rmax rest m) in *.
  set (tot := np_sum (m :: rest)) in *.
  set (k := INR (length (m :: rest))) in *.
  assert (Hk : 1 <= k).
  { unfold k. cbn [length]. rewrite S_INR. pose proof (pos_INR (length rest)). lra. }
  assert (Hmu : tot / k * k = tot) by (field; lra).
  assert (Hmu0 : 0 <= tot / k)
    by (apply Rmult_le_pos; [exact Hs | apply Rlt_le, Rinv_0_lt_compat; lra]).
  assert (Hd : 0 < tot / k + 1e-12) by lra.
  assert (HkN : k <= INR (S (fft_size / 2)))
    by (unfold k; apply le_INR, Hlen).
  split.
  - apply Rmult_le_pos; [lra | apply Rlt_le, Rinv_0_lt_compat, Hd].
  - apply Rle_trans with k; [|exact HkN].
    apply Rmult_le_reg_r with (tot / k + 1e-12); [exact Hd|].
    unfold Rdiv at 1. rewrite Rmult_assoc, Rinv_l by lra. nra.
Qed.

Lemma low_peakiness_range_witness :
  len (Mono [0.5; -0.5; 0.25]) <> 0%nat /\ (8000 <> 0)%Z
  /\ exists (fv : FeatureVector) (p : R),
       analyze_audio_features (Mono [0.5; -0.5; 0.25]) 8000 = Ok fv
       /\ lowPeakiness fv = Real p /\ 0 <= p.
Proof.
  split; [discriminate|]. split; [discriminate|].
  destruct (low_peakiness_range (Mono [0.5; -0.5; 0.25]) 8000)
    as [fv [m [mean [rest [E [_ [_ [P [P0 _]]]]]]]]];
    [discriminate | discriminate |].
  exists fv. eexists. split; [exact E|]. split; [exact P | exact P0].
Defined.

(** *** Flat and silent spectra *)

Local Abbreviation allzero := (Forall (fun x : R => x = 0)).

Lemma allzero_repeat (a : list R) : allzero a -> a = repeat 0 (length a).
Proof.
  induction 1 as [|x a Hx _ IH]; [reflexivity|].
  cbn [length repeat]. now rewrite Hx, <- IH.
Qed.

Lemma repeat_allzero (k : nat) : allzero (repeat 0 k).
Proof. apply Forall_forall. intros x Hx. now apply repeat_spec in Hx. Qed.

Lemma firstn_allzero (n : nat) (a : list R) :
  allzero a -> allzero (firstn n a).
Proof.
  intros H. revert n.
  induction H as [|x a Hx _ IH]; intros [|n]; cbn [firstn]; constructor;
    [exact Hx | apply IH].
Qed.

Lemma np_sum_allzero (a : list R) : allzero a -> np_sum a = 0.
Proof.
  induction 1 as [|x a Hx _ IH]; [reflexivity|].
  change (np_sum (x :: a)) with (x + np_sum a). rewrite Hx, IH. ring.
Qed.

Lemma compress_allzero (mask : list bool) (a : list R) :
  allzero a -> allzero (compress mask a).
Proof.
  intros H. revert mask.
  induction H as [|x a Hx _ IH]; intros [|b mask]; cbn [compress];
    try constructor.
  destruct b; [constructor; [exact Hx | apply IH] | apply IH].
Qed.

Lemma zip_with_scaled_allzero {B : Type} (h : B -> R) (x : list R) (l : list B) :
  allzero x -> allzero (zip_with (fun xj j => xj * h j) x l).
Proof.
  intros H. revert l.
  induction H as [|y x Hy _ IH]; intros [|j l]; cbn [zip_with];
    try constructor; [|apply IH].
  rewrite Hy. ring.
Qed.

Lemma zip_with_Rmult_allzero_l (a b : list R) :
  allzero a -> allzero (zip_with Rmult a b).
Proof. apply (zip_with_scaled_allzero (fun y : R => y)). Qed.

Lemma zip_with_Rmult_allzero_r (a b : list R) :
  allzero b -> allzero (zip_with Rmult a b).
Proof.
  intros H. revert a.
  induction H as [|y b Hy _ IH]; intros [|x a]; cbn [zip_with];
    try constructor; [|apply IH].
  rewrite Hy. ring.
Qed.

Lemma fold_left_Rmax_allzero (a : list R) :
  allzero a -> fold_left Rmax a 0 = 0.
Proof.
  induction 1 as [|x a Hx _ IH]; [reflexivity|].
  cbn [fold_left]. rewrite Hx.
  replace (Rmax 0 0) with 0 by (symmetry; apply Rmax_left; lra). exact IH.
Qed.

Lemma dft_bin_allzero (x : list R) (k : nat) :
  allzero x -> np_abs (dft_bin x k) = 0.
Proof.
  intros H. unfold dft_bin, np_abs. cbn [fst snd].
  rewrite !np_sum_allzero by (apply zip_with_scaled_allzero; exact H).
  replace (0 ^ 2 + (- 0) ^ 2) with 0 by ring. apply sqrt_0.
Qed.

(** A frame that the window brings to zero has an all-zero spectrum. *)
Lemma magnitudes_of_zero_window (waveform : list R) (fft_size : nat) :
  allzero (zip_with Rmult waveform (np_hanning (length waveform))) ->
  (length waveform <= fft_size)%nat ->
  magnitudes waveform fft_size = repeat 0 (S (fft_size / 2)).
Proof.
  intros Hz Hle.
  rewrite <- (ExtractorFacts.magnitudes_length waveform fft_size Hle).
  apply allzero_repeat.
  unfold magnitudes, np_rfft. rewrite map_map. rewrite Forall_map.
  apply Forall_forall. intros k _. apply dft_bin_allzero.
  apply Forall_app. split; [exact Hz | apply repeat_allzero].
Qed.

Lemma flat_spectrum_flatness (c : R) (k : nat) :
  compute_spectral_flatness (repeat c (S k))
  = Real (Rmax c eps / (Rmax c eps + eps)).
Proof.
  pose proof ExtractorFacts.eps_pos as He.
  unfold compute_spectral_flatness. rewrite !map_repeat.
  set (c' := Rmax c eps).
  assert (Hc : eps <= c') by apply Rmax_r.
  assert (Hk : 0 < INR (S k)) by (apply lt_0_INR; lia).
  rewrite !np_mean_nonempty by discriminate.
  rewrite !np_sum_repeat, !repeat_length. cbn [nf_map nf_map2]. f_equal.
  replace (INR (S k) * ln c' / INR (S k)) with (ln c') by (field; lra).
  replace (INR (S k) * c' / INR (S k)) with c' by (field; lra).
  rewrite exp_ln by lra.
  assert (Hd : 0 < c' + eps) by lra.
  assert (H0 : 0 < c' / (c' + eps)) by (apply Rdiv_lt_0_compat; lra).
  assert (H1 : c' / (c' + eps) < 1).
  { apply Rmult_lt_reg_r with (c' + eps); [exact Hd|].
    unfold Rdiv. rewrite Rmult_assoc, Rinv_l by lra. lra. }
  unfold np_clip. rewrite (Rmax_left _ 0) by lra. apply Rmin_right. lra.
Qed.

(** The features of an all-zero spectrum. *)
Lemma spectral_features_of_zero_spectrum (r : npfloat) (n : nat) (d : R) (k : nat) :
  spectral_features r (np_rfftfreq n d) (repeat 0 (S k))
  = {| rms := r; lowRatio := Real 0; midRatio := Real 0; highRatio := Real 0;
       centroid := Real 0; flatness := Real (1 / 2); lowPeakiness := Real 0 |}.
Proof.
  pose proof ExtractorFacts.eps_pos as He.
  unfold spectral_features.
  set (freqs := np_rfftfreq n d). set (mags := repeat 0 (S k)).
  assert (Hz : allzero mags) by apply repeat_allzero.
  assert (Hen : allzero (map (fun m => m ^ 2) mags)).
  { rewrite Forall_map. apply Forall_forall. intros x Hx.
    apply repeat_spec in Hx. rewrite Hx. ring. }
  rewrite !(np_sum_allzero (compress _ _)) by (apply compress_allzero, Hen).
  rewrite (np_sum_allzero (zip_with Rmult freqs mags))
    by (apply zip_with_Rmult_allzero_r, Hz).
  rewrite !Rdiv_0_l.
  assert (F : compute_spectral_flatness mags = Real (1 / 2)).
  { unfold mags. rewrite flat_spectrum_flatness.
    rewrite (Rmax_right 0 eps) by lra. f_equal. field. lra. }
  assert (P : low_peakiness_of (compress (low_mask freqs) mags) = Real 0).
  { destruct (low_band_has_dc n d mags) as [m [rest L]]; [discriminate|].
    fold freqs in L.
    pose proof (compress_allzero (low_mask freqs) mags Hz) as Hl.
    rewrite L in Hl |- *. inversion Hl as [|? ? Hm Hrest]; subst.
    cbn [low_peakiness_of np_mean nf_map].
    rewrite (fold_left_Rmax_allzero rest Hrest). f_equal. apply Rdiv_0_l. }
  rewrite F, P. reflexivity.
Qed.

Lemma within_exact (tol x : R) : 0 <= tol -> within tol (Real x) x.
Proof.
  intros H. unfold within. replace (x - x) with 0 by ring.
  rewrite Rabs_R0. exact H.
Qed.

(** In exact arithmetic a silent frame has these features; the flatness
    computed in binary64 is one rounding step away from one half. *)
Lemma silence_exact (s : list R) (sr : Z) :
  allzero s -> s <> [] -> sr <> 0%Z ->
  analyze_audio_features (Mono s) sr
  = Ok {| rms := Real 0; lowRatio := Real 0; midRatio := Real 0;
          highRatio := Real 0; centroid := Real 0;
          flatness := Real (1 / 2); lowPeakiness := Real 0 |}.
Proof.
  intros Hz Hne Hsr.
  assert (Hw : len (Mono s) <> 0%nat)
    by (cbn [len]; intros H; apply Hne, length_zero_iff_nil, H).
  rewrite (ExtractorFacts.analyze_audio_features_ok (Mono s) sr Hw Hsr).
  pose proof (ExtractorFacts.analysis_frame_nonempty (Mono s) Hw) as Hn.
  set (frame := analysis_frame (Mono s)) in *.
  assert (Hf : allzero frame) by (unfold frame, analysis_frame; apply firstn_allzero, Hz).
  rewrite (magnitudes_of_zero_window frame)
    by (try apply zip_with_Rmult_allzero_l; try apply ExtractorFacts.pow2_log2_up_ge;
        exact Hf).
  rewrite spectral_features_of_zero_spectrum. do 2 f_equal.
  assert (Hsq : allzero (map (fun x => x ^ 2) frame)).
  { rewrite Forall_map. apply Forall_forall. intros x Hx.
    rewrite Forall_forall in Hf. rewrite (Hf x Hx). ring. }
  rewrite np_mean_nonempty
    by (destruct frame; [exfalso; apply Hn; reflexivity | discriminate]).
  cbn [nf_map]. rewrite (np_sum_allzero _ Hsq), Rdiv_0_l, sqrt_0. reflexivity.
Qed.

(** X20.  Silence: on a non-empty all-zero mono waveform (non-zero sample
    rate) the extractor does not fail and returns rms 0, the three band
    ratios 0, centroid 0 and lowPeakiness 0; its flatness is within 1e-9
    of one half, so the side of the scorer's 0.5 flatness threshold it
    falls on is decided by rounding. *)
Theorem features_of_silence (s : list R) (sr : Z) :
  Forall (fun x => x = 0) s -> s <> [] -> sr <> 0%Z ->
  exists fv : FeatureVector,
    analyze_audio_features (Mono s) sr = Ok fv
    /\ rms fv = Real 0
    /\ lowRatio fv = Real 0 /\ midRatio fv = Real 0 /\ highRatio fv = Real 0
    /\ centroid fv = Real 0
    /\ lowPeakiness fv = Real 0
    /\ within 1e-9 (flatness fv) (1 / 2).
Proof.
  intros Hz Hne Hsr. eexists. split; [apply (silence_exact s sr Hz Hne Hsr)|].
  cbn [rms lowRatio midRatio highRatio centroid lowPeakiness flatness].
  repeat (split; [reflexivity|]). apply within_exact. lra.
Qed.

Lemma features_of_silence_witness :
  Forall (fun x => x = 0) [0; 0; 0; 0] /\ [0; 0; 0; 0] <> [] /\ (16000 <> 0)%Z
  /\ exists fv : FeatureVector,
       analyze_audio_features (Mono [0; 0; 0; 0]) 16000 = Ok fv
       /\ rms fv = Real 0
       /\ lowRatio fv = Real 0 /\ midRatio fv = Real 0 /\ highRatio fv = Real 0
       /\ centroid fv = Real 0
       /\ lowPeakiness fv = Real 0
       /\ within 1e-9 (flatness fv) (1 / 2).
Proof.
  assert (H : Forall (fun x => x = 0) [0; 0; 0; 0])
    by (repeat constructor).
  split; [exact H|]. split; [discriminate|]. split; [discriminate|].
  apply (features_of_silence [0; 0; 0; 0] 16000 H); discriminate.
Defined.

(** In exact arithmetic, the features of a two-sample frame. *)
Lemma two_samples_exact (a b : R) (sr : Z) :
  sr <> 0%Z ->
  analyze_audio_features (Mono [a; b]) sr
  = Ok {| rms := Real (sqrt ((a ^ 2 + b ^ 2) / 2));
          lowRatio := Real 0; midRatio := Real 0; highRatio := Real 0;
          centroid := Real 0; flatness := Real (1 / 2);
          lowPeakiness := Real 0 |}.
Proof.
  intros Hsr.
  assert (Hw : len (Mono [a; b]) <> 0%nat) by discriminate.
  rewrite (ExtractorFacts.analyze_audio_features_ok (Mono [a; b]) sr Hw Hsr).
  assert (Hfr : analysis_frame (Mono [a; b]) = [a; b]).
  { unfold analysis_frame. apply firstn_all2.
    unfold SAMPLE_COUNT. cbn [length]. lia. }
  rewrite Hfr.
  assert (Hwin : allzero (zip_with Rmult [a; b] (np_hanning (length [a; b])))).
  { cbn [length np_hanning seq map zip_with].
    assert (C0 : cos (PI * (1 - INR 2 + 2 * INR 0) / (INR 2 - 1)) = -1).
    { replace (PI * (1 - INR 2 + 2 * INR 0) / (INR 2 - 1)) with (- PI)
        by (simpl; field).
      rewrite cos_neg. apply cos_PI. }
    assert (C1 : cos (PI * (1 - INR 2 + 2 * INR 1) / (INR 2 - 1)) = -1).
    { replace (PI * (1 - INR 2 + 2 * INR 1) / (INR 2 - 1)) with PI
        by (simpl; field).
      apply cos_PI. }
    rewrite C0, C1. repeat constructor; lra. }
  rewrite (magnitudes_of_zero_window [a; b])
    by (try exact Hwin; apply ExtractorFacts.pow2_log2_up_ge).
  rewrite spectral_features_of_zero_spectrum. do 2 f_equal.
  cbn [map np_mean nf_map length]. do 2 f_equal.
  unfold np_sum. simpl. field.
Qed.

(** X21.  A two-sample waveform is analysed as silence whatever its
    samples: the Hann window of length 2 is zero at both points, so the
    three band ratios, the centroid and lowPeakiness are 0 and the
    flatness is within 1e-9 of one half. *)
Theorem two_samples_windowed_to_silence (a b : R) (sr : Z) :
  sr <> 0%Z ->
  exists fv : FeatureVector,
    analyze_audio_features (Mono [a; b]) sr = Ok fv
    /\ lowRatio fv = Real 0 /\ midRatio fv = Real 0 /\ highRatio fv = Real 0
    /\ centroid fv = Real 0
    /\ lowPeakiness fv = Real 0
    /\ within 1e-9 (flatness fv) (1 / 2).
Proof.
  intros Hsr. eexists. split; [apply (two_samples_exact a b sr Hsr)|].
  cbn [lowRatio midRatio highRatio centroid lowPeakiness flatness].
  repeat (split; [reflexivity|]). apply within_exact. lra.
Qed.

Lemma two_samples_windowed_to_silence_witness :
  (22050 <> 0)%Z
  /\ exists fv : FeatureVector,
       analyze_audio_features (Mono [0.75; -0.25]) 22050 = Ok fv
       /\ lowRatio fv = Real 0 /\ midRatio fv = Real 0 /\ highRatio fv = Real 0
       /\ centroid fv = Real 0
       /\ lowPeakiness fv = Real 0
       /\ within 1e-9 (flatness fv) (1 / 2).
Proof.
  split; [discriminate|].
  apply (two_samples_windowed_to_silence 0.75 (-0.25) 22050). discriminate.
Defined.

(** In exact arithmetic, the features of a one-sample frame. *)
Lemma one_sample_exact (a : R) (sr : Z) :
  sr <> 0%Z ->
  analyze_audio_features (Mono [a]) sr
  = Ok {| rms := Real (Rabs a);
          lowRatio := Real (Rabs a ^ 2 / (Rabs a ^ 2 + 1e-12));
          midRatio := Real 0; highRatio := Real 0; centroid := Real 0;
          flatness :=
            Real (Rmax (Rabs a) eps / (Rmax (Rabs a) eps + eps));
          lowPeakiness := Real (Rabs a / (Rabs a + 1e-12)) |}.
Proof.
  intros Hsr.
  assert (Hw : len (Mono [a]) <> 0%nat) by discriminate.
  rewrite (ExtractorFacts.analyze_audio_features_ok (Mono [a]) sr Hw Hsr).
  assert (Hfr : analysis_frame (Mono [a]) = [a]).
  { unfold analysis_frame. apply firstn_all2.
    unfold SAMPLE_COUNT. cbn [length]. lia. }
  rewrite Hfr. cbn [length]. change (2 ^ Nat.log2_up 1)%nat with 1%nat.
  assert (Hm : magnitudes [a] 1 = [Rabs a]).
  { unfold magnitudes, np_rfft, dft_bin, np_abs.
    cbn [length np_hanning zip_with Nat.sub repeat app Nat.div Nat.divmod
         fst snd seq map np_sum fold_right].
    f_equal.
    replace (2 * PI * INR 0 * INR 0 / INR 1) with 0 by (simpl; field).
    rewrite cos_0, sin_0.
    replace ((a * 1 * 1 + 0) ^ 2 + (- (a * 1 * 0 + 0)) ^ 2) with (Rsqr a)
      by (unfold Rsqr; ring).
    apply sqrt_Rsqr_abs. }
  assert (Hf : np_rfftfreq 1 (1 / IZR sr) = [0]).
  { unfold np_rfftfreq. cbn [Nat.div Nat.divmod fst seq map]. f_equal.
    simpl. ring. }
  rewrite Hm, Hf. unfold spectral_features.
  unfold low_mask, mid_mask, high_mask. cbn [map zip_with].
  rewrite (ExtractorFacts.Rltb_true 0 300), (ExtractorFacts.Rgeb_false 0 300),
    (ExtractorFacts.Rltb_true 0 3000), (ExtractorFacts.Rgeb_false 0 3000) by lra.
  cbn [andb compress low_peakiness_of np_mean nf_map fold_left length map].
  change [Rabs a] with (repeat (Rabs a) 1). rewrite flat_spectrum_flatness.
  cbn [repeat]. unfold np_sum. cbn [fold_right zip_with].
  pose proof (Rabs_pos a) as Ha.
  f_equal. f_equal.
  - f_equal. rewrite <- (sqrt_Rsqr_abs a). f_equal. unfold Rsqr. simpl. field.
  - f_equal. f_equal; ring.
  - f_equal. unfold Rdiv. ring.
  - f_equal. unfold Rdiv. ring.
  - f_equal. unfold Rdiv. ring.
  - f_equal. f_equal. simpl. field.
Qed.

(** X22.  A one-sample waveform is transformed with size 1 and window
    [1]: its single bin has frequency 0, so all the energy falls in the
    low band; midRatio, highRatio and the centroid are 0, and lowRatio and
    lowPeakiness are numbers in [0, 1]. *)
Theorem features_of_one_sample (a : R) (sr : Z) :
  sr <> 0%Z ->
  exists (fv : FeatureVector) (lo p : R),
    analyze_audio_features (Mono [a]) sr = Ok fv
    /\ midRatio fv = Real 0 /\ highRatio fv = Real 0
    /\ centroid fv = Real 0
    /\ lowRatio fv = Real lo /\ 0 <= lo <= 1
    /\ lowPeakiness fv = Real p /\ 0 <= p <= 1.
Proof.
  intros Hsr. eexists _, _, _.
  split; [apply (one_sample_exact a sr Hsr)|].
  cbn [lowRatio midRatio highRatio centroid lowPeakiness].
  do 3 (split; [reflexivity|]).
  pose proof (Rabs_pos a) as Ha.
  assert (Q : forall x, 0 <= x -> 0 <= x / (x + 1e-12) <= 1).
  { intros x Hx. assert (Hd : 0 < x + 1e-12) by lra. split.
    - apply Rmult_le_pos; [exact Hx | apply Rlt_le, Rinv_0_lt_compat, Hd].
    - apply Rmult_le_reg_r with (x + 1e-12); [exact Hd|].
      unfold Rdiv. rewrite Rmult_assoc, Rinv_l by lra. lra. }
  split; [reflexivity|]. split; [apply Q, pow2_ge_0|].
  split; [reflexivity|]. apply Q, Ha.
Qed.

Lemma features_of_one_sample_witness :
  (44100 <> 0)%Z
  /\ exists (fv : FeatureVector) (lo p : R),
       analyze_audio_features (Mono [-0.5]) 44100 = Ok fv
       /\ midRatio fv = Real 0 /\ highRatio fv = Real 0
       /\ centroid fv = Real 0
       /\ lowRatio fv = Real lo /\ 0 <= lo <= 1
       /\ lowPeakiness fv = Real p /\ 0 <= p <= 1.
Proof.
  split; [discriminate|].
  apply (features_of_one_sample (-0.5) 44100). discriminate.
Defined.

End ExtractorExtras.
